(** * Weather radar backend: the acquisition-and-serving pipeline of
      [backend/server.js], embedded and verified.

    The definitions follow the source file top to bottom:
    - [Text]: the JavaScript string operations and the regular expressions
      the scanner and the handler use;
    - [Scanner]: the selection of the newest file in
      [fetchLatestMRMSFile];
    - [Num]: [toFixed], [Math.max], [Math.min], [Math.PI];
    - [Projector]: the grid loop of [parseGRIB2Buffer];
    - [Js]: the module-level variables, what the outside world and the
      engine supply, and the monad the handlers run in (state that
      survives a throw, [try]/[catch], promises);
    - [Fallback]: [generateFallbackData] over an explicit random source;
    - [Server]: the handlers of [/api/radar/latest] and [/api/health];
    - [Frontend]: the colouring, the fetch and the markers of
      [frontend/src/App.js].
    [Examples] and [Statements] hold the concrete inputs and the
    predicates of the second part, which proves the properties module by
    module. [Closeness] states what is emitted to one unit of the decimal
    kept, which holds of the double arithmetic of the engine as well;
    [Lifetime] names the snapshots after which the process lives on.

    Numbers are exact rationals ([Q]). Every finite double is a rational,
    and [toFixed] is defined by ECMAScript on the exact value of its
    argument, so the comparisons, the range filter and the decimal rounding
    are modelled exactly; [+], [*] and [/] are the exact operations,
    without the rounding of double precision. [Math.random], [Math.cos]
    and [Math.sin] are parameters, constrained only by their ranges. *)

From Stdlib Require Import ZArith QArith Qround Qabs Lqa Lia Bool.
From Stdlib Require Import List Ascii String.
From Stdlib Require Import Sorting.Sorted.
Import ListNotations.

Set Implicit Arguments.

(* ===================================================================== *)
(** ** Text: strings and the regular expressions of the source            *)
(* ===================================================================== *)

Module Text.

Local Open Scope string_scope.

(** The fragment of regular expressions that occurs in [server.js]:
    literals, the class [\d], bounded repetition [{n}], sequencing and
    the greedy option [( )?]. *)
Inductive regex : Type :=
| Lit (s : string)
| Digit
| Rep (n : nat) (r : regex)
| Seq (r1 r2 : regex)
| Opt (r : regex).

(** [\d] matches exactly the ten ASCII digits. *)
Definition is_digit (c : ascii) : bool :=
  let n := nat_of_ascii c in (48 <=? n)%nat && (n <=? 57)%nat.

Definition mem_ascii (c : ascii) (cs : list ascii) : bool :=
  existsb (Ascii.eqb c) cs.

Fixpoint lit_at (p s : string) : option string :=
  match p with
  | EmptyString => Some s
  | String a p' =>
      match s with
      | String b s' => if Ascii.eqb a b then lit_at p' s' else None
      | EmptyString => None
      end
  end.

(** Backtracking matcher in continuation-passing style: [m r s k] matches
    [r] at the start of [s] and hands the remaining text to [k]; a greedy
    option first tries its body and falls back to the empty match when the
    continuation rejects. The result is the text left after the match. *)
Fixpoint m (r : regex) (s : string) (k : string -> option string)
  : option string :=
  match r with
  | Lit p => match lit_at p s with Some rest => k rest | None => None end
  | Digit =>
      match s with
      | String c s' => if is_digit c then k s' else None
      | EmptyString => None
      end
  | Rep n r' =>
      (fix rep (n : nat) (s : string) (k : string -> option string) :=
         match n with
         | O => k s
         | S n' => m r' s (fun s' => rep n' s' k)
         end) n s k
  | Seq r1 r2 => m r1 s (fun s' => m r2 s' k)
  | Opt r' =>
      match m r' s k with
      | Some rest => Some rest
      | None => k s
      end
  end.

Fixpoint take (n : nat) (s : string) : string :=
  match n, s with
  | S n', String c s' => String c (take n' s')
  | _, _ => EmptyString
  end.

(** The text matched by [r] at the very start of [s], if any. *)
Definition match_here (r : regex) (s : string) : option string :=
  match m r s (fun rest => Some rest) with
  | Some rest => Some (take (length s - length rest) s)
  | None => None
  end.

(** [s.match(/r/)] without the [g] flag: the leftmost match, or [None]
    for JavaScript's [null]. *)
Fixpoint search (r : regex) (s : string) : option string :=
  match match_here r s with
  | Some w => Some w
  | None =>
      match s with
      | EmptyString => None
      | String _ s' => search r s'
      end
  end.

(** All matches of a global regular expression, left to right and not
    overlapping. [skip] counts the characters of the previous match that
    are still to be passed (the [lastIndex] of the regular expression). *)
Fixpoint scan (r : regex) (skip : nat) (s : string) : list string :=
  match skip with
  | S n =>
      match s with
      | EmptyString => []
      | String _ s' => scan r n s'
      end
  | O =>
      match match_here r s with
      | Some w =>
          w :: match s with
               | EmptyString => []
               | String _ s' => scan r (length w - 1) s'
               end
      | None =>
          match s with
          | EmptyString => []
          | String _ s' => scan r 0 s'
          end
      end
  end.

(** [s.match(/r/g)]: the array of all matches, or [null] when there is
    none. *)
Definition match_g (r : regex) (s : string) : option (list string) :=
  match scan r 0 s with
  | [] => None
  | ws => Some ws
  end.

(** [s.endsWith(suffix)]. *)
Definition endsWith (s suffix : string) : bool :=
  (length suffix <=? length s)%nat &&
  String.eqb (substring (length s - length suffix) (length suffix) s) suffix.

(** [s.replace(/r/g, '')]: delete every match. Only used with
    single-character classes. *)
Fixpoint remove_all (cs : list ascii) (s : string) : string :=
  match s with
  | EmptyString => EmptyString
  | String c s' =>
      if mem_ascii c cs then remove_all cs s' else String c (remove_all cs s')
  end.

(** [s.split(c)[0]]: the text before the first [c]. *)
Fixpoint before (c : ascii) (s : string) : string :=
  match s with
  | EmptyString => EmptyString
  | String a s' => if Ascii.eqb a c then EmptyString else String a (before c s')
  end.

(** [s.replace(a, b)] with one-character strings: first occurrence only. *)
Fixpoint replace_first (a b : ascii) (s : string) : string :=
  match s with
  | EmptyString => EmptyString
  | String c s' =>
      if Ascii.eqb c a then String b s' else String c (replace_first a b s')
  end.

(** The words a regular expression denotes. *)
Fixpoint lang (r : regex) (w : string) : Prop :=
  match r with
  | Lit p => w = p
  | Digit => exists c, is_digit c = true /\ w = String c EmptyString
  | Rep n r' =>
      (fix rep (n : nat) (w : string) : Prop :=
         match n with
         | O => w = EmptyString
         | S n' => exists w1 w2, w = w1 ++ w2 /\ lang r' w1 /\ rep n' w2
         end) n w
  | Seq r1 r2 => exists w1 w2, w = w1 ++ w2 /\ lang r1 w1 /\ lang r2 w2
  | Opt r' => lang r' w \/ w = EmptyString
  end.

(** JavaScript compares strings by code unit, which on this alphabet is
    [String.compare]. *)
Definition str_le (a b : string) : Prop := String.leb a b = true.

(** [Array.prototype.sort()] with the default comparator. The order is
    total and antisymmetric on strings, so the sorted array does not depend
    on the algorithm; insertion sort stands for the engine's. *)
Fixpoint insert_sorted (x : string) (l : list string) : list string :=
  match l with
  | [] => [x]
  | y :: l' => if String.leb x y then x :: y :: l' else y :: insert_sorted x l'
  end.

Fixpoint Array_sort (l : list string) : list string :=
  match l with
  | [] => []
  | x :: l' => insert_sorted x (Array_sort l')
  end.

End Text.

(** Outcome of a computation that may throw (or of a promise that may
    reject): the error carries its message. *)
Inductive outcome (A : Type) : Type :=
| Return (a : A)
| Throw (e : string).
Arguments Return {A} a.
Arguments Throw {A} e.

(* ===================================================================== *)
(** ** Scanner: the pure part of [fetchLatestMRMSFile]                    *)
(* ===================================================================== *)

Module Scanner.
Import Text.
Local Open Scope string_scope.

(** [/MRMS_ReflectivityAtLowestAltitude_\d{8}-\d{6}\.grib2(\.gz)?/g] *)
Definition file_re : regex :=
  Seq (Lit "MRMS_ReflectivityAtLowestAltitude_")
 (Seq (Rep 8 Digit)
 (Seq (Lit "-")
 (Seq (Rep 6 Digit)
 (Seq (Lit ".grib2")
      (Opt (Lit ".gz")))))).

(** [/\d{8}-\d{6}/] *)
Definition stamp_re : regex :=
  Seq (Rep 8 Digit) (Seq (Lit "-") (Rep 6 Digit)).

Record RemoteFileRef : Type := {
  filename : string;
  isCompressed : bool
}.

(** [data.match(...) || []] *)
Definition allFiles (body : string) : list string :=
  match match_g file_re body with
  | Some ws => ws
  | None => []
  end.

(** The body of the ['end'] callback of the listing request. *)
Definition on_listing_end (body : string) : outcome RemoteFileRef :=
  let allFiles := allFiles body in
  if (List.length allFiles =? 0)%nat then Throw "No MRMS files found"
  else
    match rev (Array_sort allFiles) with
    | latestFile :: _ =>
        Return {| filename := latestFile;
                  isCompressed := endsWith latestFile ".gz" |}
    | [] => Throw "Cannot read properties of undefined (reading 'endsWith')"
    end.

End Scanner.

(* ===================================================================== *)
(** ** Num: numbers                                                       *)
(* ===================================================================== *)

Module Num.
Local Open Scope Q_scope.

Definition Qltb (x y : Q) : bool := negb (Qle_bool y x).

Definition pow10 (d : nat) : Z := (10 ^ Z.of_nat d)%Z.

(** The integer [n] for which [n / 10^d] is closest to [x >= 0], the
    larger one on a tie (ECMAScript, Number.prototype.toFixed, step 10). *)
Definition nearest (d : nat) (x : Q) : Z :=
  Qfloor (x * inject_Z (pow10 d) + (1 # 2)).

(** [parseFloat(x.toFixed(d))]: [toFixed] rounds the magnitude of [x] and
    keeps its sign; the decimal it prints is read back as a number. (From
    10^21 on [toFixed] prints in exponent notation instead; no number of
    this program comes near.) The result here is the decimal printed, and
    the arithmetic that feeds it is exact, where the engine computes in
    doubles: on a tie of the last place the two can print neighbouring
    decimals, so an equality with [fixed] of an exact expression
    is a statement of the decimal arithmetic; the ranges, and the
    agreements to one unit of the last place, hold of the doubles as
    well. *)
Definition fixed (d : nat) (x : Q) : Q :=
  if Qle_bool 0 x
  then inject_Z (nearest d x) / inject_Z (pow10 d)
  else - (inject_Z (nearest d (- x)) / inject_Z (pow10 d)).

Definition Qmax (x y : Q) : Q := if Qle_bool x y then y else x.
Definition Qmin (x y : Q) : Q := if Qle_bool x y then x else y.

(** [Math.PI], the double [0x400921FB54442D18]. *)
Definition Math_PI : Q := 884279719003555 # 281474976710656.

(** A grid value as the decoder hands it over: a JavaScript number. *)
Inductive jsnum : Type :=
| Fin (q : Q)
| NaN
| PosInf
| NegInf.

End Num.

(** A radar sample, [{ lat, lon, value }]. *)
Record Sample : Type := {
  lat : Q;
  lon : Q;
  value : Q
}.

(* ===================================================================== *)
(** ** Projector: the grid loop of [parseGRIB2Buffer]                     *)
(* ===================================================================== *)

Module Projector.
Import Num.
Local Open Scope Q_scope.

(** What the handler reads of a decoded GRIB2 message. A header field is
    [None] when the decoder leaves it undefined. *)
Record Message : Type := {
  header_ni : option Z;
  header_nj : option Z;
  data : list jsnum
}.

(** [x || d] on an integer field: undefined and 0 are falsy. *)
Definition or_default (x : option Z) (d : Z) : Z :=
  match x with
  | Some 0%Z => d
  | Some v => v
  | None => d
  end.

(** [for (let i = from; i < limit; i += step) acc = body(i, acc)].
    [fuel] bounds the number of iterations. *)
Fixpoint for_step (A : Type) (fuel : nat) (i limit step : Z)
    (body : Z -> A -> A) (acc : A) : A :=
  match fuel with
  | O => acc
  | S fuel' =>
      if (i <? limit)%Z
      then for_step fuel' (i + step)%Z limit step body (body i acc)
      else acc
  end.

Definition minLat : Q := 20.
Definition maxLat : Q := 55.
Definition minLon : Q := -130.
Definition maxLon : Q := -60.
Definition sampleRate : Z := 25.

(** The body of the inner loop: one grid cell. *)
Definition visit_cell (ni nj : Z) (data : list jsnum) (j i : Z)
    (points : list Sample) : list Sample :=
  let latStep := (maxLat - minLat) / inject_Z nj in
  let lonStep := (maxLon - minLon) / inject_Z ni in
  let index := (j * ni + i)%Z in
  if (index <? Z.of_nat (List.length data))%Z then
    match nth_error data (Z.to_nat index) with
    | Some (Fin value) =>
        if Qltb 5 value && Qltb value 80 then
          let lat := minLat + inject_Z j * latStep in
          let lon := minLon + inject_Z i * lonStep in
          points ++ [ {| lat := fixed 4 lat;
                         lon := fixed 4 lon;
                         value := fixed 1 value |} ]
        else points
    (* NaN > 5, Infinity < 80 and -Infinity > 5 are all false *)
    | Some NaN | Some PosInf | Some NegInf => points
    | None => points
    end
  else points.

(** The two nested loops over the grid. Each loop advances by 25 from 0,
    so [limit] iterations are more than it can make. *)
Definition project (message : Message) : list Sample :=
  let ni := or_default (header_ni message) 7000 in
  let nj := or_default (header_nj message) 3500 in
  let data := data message in
  for_step (Z.to_nat nj) 0 nj sampleRate
    (fun j points =>
       for_step (Z.to_nat ni) 0 ni sampleRate
         (fun i points => visit_cell ni nj data j i points) points)
    [].

(** [parseGRIB2Buffer] after [grib2.parseBuffer] has settled with
    [decoded]: [None] stands for a null or undefined result. Every error is
    rethrown with the prefix of the catch block. *)
Definition parse_decoded (decoded : outcome (option (list Message)))
  : outcome (list Sample) :=
  let rethrow (msg : string) : outcome (list Sample) :=
    Throw (String.append "Failed to parse GRIB2 data: " msg) in
  match decoded with
  | Throw e => rethrow e
  | Return None => rethrow "No data messages found in GRIB2 file"%string
  | Return (Some []) => rethrow "No data messages found in GRIB2 file"%string
  | Return (Some (message :: _)) => Return (project message)
  end.

End Projector.

(* ===================================================================== *)
(** ** Js: process state, the environment, and the monad of the handlers  *)
(* ===================================================================== *)

Module Js.
Local Open Scope string_scope.

Definition Buffer : Type := list Byte.byte.

(** What the variable [radarPoints] can hold: an array of samples, or the
    promise an [async] function returns when it is called without [await].
    The promise carries the outcome it settles with. *)
Inductive Points : Type :=
| Arr (l : list Sample)
| Promise (settled : outcome (list Sample)).

(** [radarPoints.length]: a promise has no such property ([undefined]). *)
Definition length_of (p : Points) : option nat :=
  match p with
  | Arr l => Some (List.length l)
  | Promise _ => None
  end.

(** The object stored in [cachedData] and sent by [res.json]. *)
Record Snapshot : Type := {
  timestamp : string;
  data : Points;
  count : option nat;
  source : string
}.

(** Calls to the collaborators, recorded in the order they are made. *)
Inductive Call : Type :=
| CallListing
| CallDownload (filename : string)
| CallGunzip
| CallDecoder
| CallFallback.

(** The module-level variables of [server.js], the position in the
    pseudo-random sequence, and the call record. *)
Record Process : Type := {
  cachedData : option Snapshot;
  lastFetchTime : Z;
  draws : nat;
  calls : list Call
}.

Definition startup : Process :=
  {| cachedData := None; lastFetchTime := 0; draws := 0; calls := [] |}.

(** The numeric library of the engine: the sequence [Math.random] draws
    from, and the two trigonometric functions. *)
Record Runtime : Type := {
  random_seq : nat -> Q;
  Math_cos : Q -> Q;
  Math_sin : Q -> Q
}.

(** What the outside world answers during one request. Every call settles,
    fulfilled or rejected: the code sets no timeout on its requests, so a
    call that never settles leaves the request unanswered, and no statement
    below is about such a request. *)
Record Upstream : Type := {
  Date_now : Z;
  Date_iso : string;
  get_listing : outcome string;
  get_file : string -> outcome Buffer;
  zlib_gunzip : Buffer -> outcome Buffer;
  grib2_parseBuffer : Buffer -> outcome (option (list Projector.Message))
}.

(** Computations over the process state that may throw. The state
    survives a throw, as assignments made inside a [try] block do. *)
Definition JS (A : Type) : Type := Process -> outcome A * Process.

Definition ret (A : Type) (a : A) : JS A := fun p => (Return a, p).

Definition throw (A : Type) (e : string) : JS A := fun p => (Throw e, p).
Arguments throw {A} e.

Definition bind (A B : Type) (c : JS A) (k : A -> JS B) : JS B :=
  fun p =>
    match c p with
    | (Return a, p') => k a p'
    | (Throw e, p') => (Throw e, p')
    end.

(** [try { c } catch (error) { h(error.message) }] *)
Definition try_catch (A : Type) (c : JS A) (h : string -> JS A) : JS A :=
  fun p =>
    match c p with
    | (Return a, p') => (Return a, p')
    | (Throw e, p') => h e p'
    end.

(** [await] of an already settled promise. *)
Definition await (A : Type) (o : outcome A) : JS A :=
  match o with
  | Return a => ret a
  | Throw e => throw e
  end.

(** A call of an [async] function without [await]: the caller gets a
    promise and is never thrown at; the promise settles with whatever the
    body returns or throws. When it rejects, nobody handles the rejection:
    the handler runs on and answers, and Node (from version 15 on) then
    ends the process. The monad does not model that end; statements about
    a later request assume [Lifetime.no_rejection] of the snapshot. *)
Definition unawaited (A : Type) (c : JS A) : JS (outcome A) :=
  fun p => let (o, p') := c p in (Return o, p').

Definition record_call (c : Call) : JS unit :=
  fun p =>
    (Return tt,
     {| cachedData := cachedData p; lastFetchTime := lastFetchTime p;
        draws := draws p; calls := calls p ++ [c] |}).

Definition read (A : Type) (f : Process -> A) : JS A :=
  fun p => (Return (f p), p).

Definition set_cachedData (s : Snapshot) : JS unit :=
  fun p =>
    (Return tt,
     {| cachedData := Some s; lastFetchTime := lastFetchTime p;
        draws := draws p; calls := calls p |}).

Definition set_lastFetchTime (t : Z) : JS unit :=
  fun p =>
    (Return tt,
     {| cachedData := cachedData p; lastFetchTime := t;
        draws := draws p; calls := calls p |}).

(** [Math.random()]: the next element of the sequence. *)
Definition Math_random (rt : Runtime) : JS Q :=
  fun p =>
    (Return (random_seq rt (draws p)),
     {| cachedData := cachedData p; lastFetchTime := lastFetchTime p;
        draws := S (draws p); calls := calls p |}).

(** [for (let i = from; i < from + n; i++) acc = body(i, acc)] *)
Fixpoint for_count (A : Type) (n : nat) (i : Z) (body : Z -> A -> JS A)
    (acc : A) : JS A :=
  match n with
  | O => ret acc
  | S n' => bind (body i acc) (fun acc' => for_count n' (i + 1)%Z body acc')
  end.

(** [l.forEach(x => acc = body(x, acc))] *)
Fixpoint forEach (A B : Type) (l : list B) (body : B -> A -> JS A) (acc : A)
  : JS A :=
  match l with
  | [] => ret acc
  | x :: l' => bind (body x acc) (fun acc' => forEach l' body acc')
  end.

End Js.

Declare Scope js_scope.
Delimit Scope js_scope with js.
Notation "x <- c ;; k" := (Js.bind c (fun x => k))
  (at level 61, c at next level, right associativity) : js_scope.
Notation "c ;; k" := (Js.bind c (fun _ => k))
  (at level 61, right associativity) : js_scope.

(* ===================================================================== *)
(** ** Fallback: [generateFallbackData]                                   *)
(* ===================================================================== *)

Module Fallback.
Import Num Js.
Local Open Scope Q_scope.
Local Open Scope js_scope.

Record Storm : Type := {
  storm_lat : Q;
  storm_lon : Q;
  intensity : Q;
  radius : Q
}.

Definition stormCenters : list Storm :=
  [ {| storm_lat := 35.5; storm_lon := -97.5; intensity := 55; radius := 2.5 |};
    {| storm_lat := 30.2; storm_lon := -81.6; intensity := 45; radius := 2.0 |};
    {| storm_lat := 41.8; storm_lon := -87.6; intensity := 40; radius := 1.8 |};
    {| storm_lat := 33.7; storm_lon := -84.4; intensity := 50; radius := 2.2 |};
    {| storm_lat := 29.7; storm_lon := -95.3; intensity := 38; radius := 1.5 |} ].

Section Generator.
Variable rt : Runtime.

(** [(Math.PI * 2 * i) / 80] *)
Definition angle_of (i : Z) : Q := (Math_PI * 2 * inject_Z i) / 80.

(** The sample of one storm point, from its index and its two draws. *)
Definition storm_sample (storm : Storm) (i : Z) (r1 r2 : Q) : Sample :=
  let angle := angle_of i in
  let distance := r1 * radius storm in
  let lat := storm_lat storm + distance * Math_cos rt angle in
  let lon := storm_lon storm + distance * Math_sin rt angle in
  let distanceFactor := 1 - (distance / radius storm) in
  let value :=
    Qmax 5 (Qmin 75 (intensity storm * distanceFactor + (r2 - 0.5) * 15)) in
  {| lat := fixed 4 lat; lon := fixed 4 lon; value := fixed 1 value |}.

(** The body of the inner loop of [stormCenters.forEach]. *)
Definition storm_point (storm : Storm) (i : Z) (points : list Sample)
  : JS (list Sample) :=
  r1 <- Math_random rt ;;
  r2 <- Math_random rt ;;
  ret (points ++ [storm_sample storm i r1 r2]).

Definition background_sample (r1 r2 r3 : Q) : Sample :=
  {| lat := fixed 4 (25 + r1 * 25);
     lon := fixed 4 (-125 + r2 * 55);
     value := fixed 1 (5 + r3 * 20) |}.

(** The body of the second loop. *)
Definition background_point (i : Z) (points : list Sample)
  : JS (list Sample) :=
  r1 <- Math_random rt ;;
  r2 <- Math_random rt ;;
  r3 <- Math_random rt ;;
  ret (points ++ [background_sample r1 r2 r3]).

Definition storm_loop (points : list Sample) : JS (list Sample) :=
  forEach stormCenters
    (fun storm points => for_count 80 0 (storm_point storm) points) points.

Definition generateFallbackData : JS (list Sample) :=
  record_call CallFallback ;;
  points <- storm_loop [] ;;
  points <- for_count 150 0 background_point points ;;
  ret points.

End Generator.

(** The generator as the specification words it: the angle of a storm
    point is itself drawn from the random source (a third draw per point),
    the rest as in [storm_sample]. *)
Definition spec_angle (r0 : Q) : Q := Math_PI * 2 * r0.

End Fallback.

(* ===================================================================== *)
(** ** Server: the route handlers                                         *)
(* ===================================================================== *)

Module Server.
Import Text Js.
Local Open Scope string_scope.
Local Open Scope js_scope.

Definition CACHE_DURATION : Z := 120000.

Definition LIVE : string := "MRMS RALA (Live)".
Definition GENERATED : string := "Generated (MRMS unavailable)".

Inductive Response : Type :=
| Json200 (body : Snapshot)
| Json500 (error details : string).

Record Health : Type := {
  status : string;
  health_timestamp : string;
  cached : bool;
  cacheAge : option Z
}.

(** [iso.replace(/[-:]/g, '').split('.')[0].replace('T', '-')] *)
Definition compact_stamp (iso : string) : string :=
  replace_first "T" "-" (before "." (remove_all ["-"; ":"]%char iso)).

Section Handlers.
Variable rt : Runtime.
Variable up : Upstream.

Definition fetchLatestMRMSFile : JS Scanner.RemoteFileRef :=
  record_call CallListing ;;
  body <- await (get_listing up) ;;
  await (Scanner.on_listing_end body).

Definition downloadMRMSFile (filename : string) (isCompressed : bool)
  : JS Buffer :=
  record_call (CallDownload filename) ;;
  buffer <- await (get_file up filename) ;;
  if isCompressed
  then record_call CallGunzip ;; await (zlib_gunzip up buffer)
  else ret buffer.

Definition parseGRIB2Buffer (buffer : Buffer) : JS (list Sample) :=
  record_call CallDecoder ;;
  await (Projector.parse_decoded (grib2_parseBuffer up buffer)).

(** The inner [try] block of the radar handler. The call of
    [parseGRIB2Buffer] is written without [await] in the source. *)
Definition live : JS (Points * string * string) :=
  file <- fetchLatestMRMSFile ;;
  let filename := Scanner.filename file in
  buffer <- downloadMRMSFile filename (Scanner.isCompressed file) ;;
  radarPoints <- unawaited (parseGRIB2Buffer buffer) ;;
  timestamp <-
    match search Scanner.stamp_re filename with
    | Some t => ret t
    | None => throw "Cannot read properties of null (reading '0')"
    end ;;
  ret (Promise radarPoints, timestamp, LIVE).

(** The [catch] block of the inner [try]. *)
Definition fallback (error : string) : JS (Points * string * string) :=
  radarPoints <- Fallback.generateFallbackData rt ;;
  ret (Arr radarPoints, compact_stamp (Date_iso up), GENERATED).

(** The handler past the cache test: the pipeline or its fallback, the
    two assignments to the cache variables, the response. *)
Definition refresh (now : Z) : JS Response :=
  r <- try_catch live fallback ;;
  let '(radarPoints, timestamp, source) := r in
  let fresh := {| timestamp := timestamp; data := radarPoints;
                  count := length_of radarPoints; source := source |} in
  set_cachedData fresh ;;
  set_lastFetchTime now ;;
  ret (Json200 fresh).

(** [app.get('/api/radar/latest', ...)] *)
Definition radar_latest : JS Response :=
  try_catch
    (let now := Date_now up in
     cache <- read cachedData ;;
     last <- read lastFetchTime ;;
     match cache with
     | Some snapshot =>
         if (now - last <? CACHE_DURATION)%Z then ret (Json200 snapshot)
         else refresh now
     | None => refresh now
     end)
    (fun error => ret (Json500 "Failed to process radar data" error)).

(** [app.get('/api/health', ...)] *)
Definition health : JS Health :=
  cache <- read cachedData ;;
  last <- read lastFetchTime ;;
  ret {| status := "ok";
         health_timestamp := Date_iso up;
         cached := match cache with Some _ => true | None => false end;
         cacheAge := match cache with
                     | Some _ => Some ((Date_now up - last) / 1000)%Z
                     | None => None
                     end |}.

End Handlers.

End Server.

(* ===================================================================== *)
(** ** Examples: concrete inputs used below                               *)
(* ===================================================================== *)

Module Examples.
Local Open Scope string_scope.

Definition older : string :=
  "MRMS_ReflectivityAtLowestAltitude_20240101-000000.grib2".
Definition newer : string :=
  "MRMS_ReflectivityAtLowestAltitude_20240101-000200.grib2.gz".

(** A directory page that lists two files. *)
Definition page : string :=
  "<a href='" ++ older ++ "'>a</a> <a href='" ++ newer ++ "'>b</a>".

(** A runtime whose random source always draws one half; its cosine and
    sine are those of the angle 0. *)
Definition steady : Js.Runtime :=
  {| Js.random_seq := fun _ => 1 # 2;
     Js.Math_cos := fun _ => 1;
     Js.Math_sin := fun _ => 0 |}.

(** A grid of one cell whose value is just above the lower bound. *)
Definition faint_grid : Projector.Message :=
  {| Projector.header_ni := Some 1%Z;
     Projector.header_nj := Some 1%Z;
     Projector.data := [Num.Fin (504 # 100)] |}.

(** A grid of 26 rows and 50 columns, every cell at 10 dBZ. *)
Definition even_grid : Projector.Message :=
  {| Projector.header_ni := Some 50%Z;
     Projector.header_nj := Some 26%Z;
     Projector.data := repeat (Num.Fin 10) 1300 |}.

(** The scenario of the specification: every cell at 100 dBZ. *)
Definition saturated_grid : Projector.Message :=
  {| Projector.header_ni := Some 50%Z;
     Projector.header_nj := Some 26%Z;
     Projector.data := repeat (Num.Fin 100) 1300 |}.

(** The bytes of a download and of its decompressed form (their content
    is opaque to the handler). *)
Definition gz_bytes : Js.Buffer := [Byte.x1f; Byte.x8b; Byte.x08].
Definition grib_bytes : Js.Buffer := [Byte.x47; Byte.x52; Byte.x49; Byte.x42].

(** A request at 2024-01-01T00:02:00Z during which every stage of the
    pipeline succeeds and the decoder returns [even_grid]. *)
Definition live_world : Js.Upstream :=
  {| Js.Date_now := 1704067320000;
     Js.Date_iso := "2024-01-01T00:02:00.000Z";
     Js.get_listing := Return page;
     Js.get_file := fun _ => Return gz_bytes;
     Js.zlib_gunzip := fun _ => Return grib_bytes;
     Js.grib2_parseBuffer := fun _ => Return (Some [even_grid]) |}.

(** The same request, one second later. *)
Definition live_world_later : Js.Upstream :=
  {| Js.Date_now := 1704067321000;
     Js.Date_iso := "2024-01-01T00:02:01.000Z";
     Js.get_listing := Return page;
     Js.get_file := fun _ => Return gz_bytes;
     Js.zlib_gunzip := fun _ => Return grib_bytes;
     Js.grib2_parseBuffer := fun _ => Return (Some [even_grid]) |}.

(** The same request, but the decoder rejects the buffer. *)
Definition undecodable_world : Js.Upstream :=
  {| Js.Date_now := 1704067320000;
     Js.Date_iso := "2024-01-01T00:02:00.000Z";
     Js.get_listing := Return page;
     Js.get_file := fun _ => Return gz_bytes;
     Js.zlib_gunzip := fun _ => Return grib_bytes;
     Js.grib2_parseBuffer := fun _ => Throw "Invalid GRIB2 section" |}.

(** The same request, but the listing names no file. *)
Definition empty_listing_world : Js.Upstream :=
  {| Js.Date_now := 1704067320000;
     Js.Date_iso := "2024-01-01T00:02:00.000Z";
     Js.get_listing := Return "<html><body>Index of /data</body></html>";
     Js.get_file := fun _ => Return gz_bytes;
     Js.zlib_gunzip := fun _ => Return grib_bytes;
     Js.grib2_parseBuffer := fun _ => Return (Some [even_grid]) |}.

(** The process after the first request of [live_world]. *)
Definition warm : Js.Process :=
  snd (Server.radar_latest steady live_world Js.startup).

End Examples.

(* ===================================================================== *)
(** ** Statements: the predicates the theorems are phrased with           *)
(* ===================================================================== *)

Module Statements.
Import Num.
Local Open Scope Q_scope.

(** The loop variable of a strided loop: a multiple of the stride from 0. *)
Definition on_stride (k : Z) : Prop :=
  (0 <= k)%Z /\ (k mod Projector.sampleRate = 0)%Z.

(** [s] is the sample of a visited cell of the grid whose value lies
    strictly between 5 and 80. *)
Definition from_cell (message : Projector.Message) (s : Sample) : Prop :=
  let ni := Projector.or_default (Projector.header_ni message) 7000 in
  let nj := Projector.or_default (Projector.header_nj message) 3500 in
  exists (j i : Z) (v : Q),
    on_stride j /\ (j < nj)%Z /\ on_stride i /\ (i < ni)%Z /\
    nth_error (Projector.data message) (Z.to_nat (j * ni + i))
    = Some (Fin v) /\
    5 < v /\ v < 80 /\
    lat s = fixed 4 (Projector.minLat + inject_Z j *
                     ((Projector.maxLat - Projector.minLat) / inject_Z nj)) /\
    lon s = fixed 4 (Projector.minLon + inject_Z i *
                     ((Projector.maxLon - Projector.minLon) / inject_Z ni)) /\
    value s = fixed 1 v.

Definition emitted_ok (message : Projector.Message) (s : Sample) : Prop :=
  from_cell message s /\ 5 <= value s <= 80.

(** [Math.random()] returns a number in [0, 1). *)
Definition unit_draws (rt : Js.Runtime) : Prop :=
  forall n, 0 <= Js.random_seq rt n /\ Js.random_seq rt n < 1.

(** [Math.cos] and [Math.sin] return numbers in [-1, 1]. *)
Definition trig_bounded (rt : Js.Runtime) : Prop :=
  forall x, (-1 <= Js.Math_cos rt x <= 1) /\ (-1 <= Js.Math_sin rt x <= 1).

(** The bounding box of the grid. *)
Definition in_box (s : Sample) : Prop :=
  (Projector.minLat <= lat s <= Projector.maxLat) /\
  (Projector.minLon <= lon s <= Projector.maxLon).

(** The process after [c] more draws. *)
Definition advance (c : nat) (p : Js.Process) : Js.Process :=
  {| Js.cachedData := Js.cachedData p;
     Js.lastFetchTime := Js.lastFetchTime p;
     Js.draws := c + Js.draws p;
     Js.calls := Js.calls p |}.

(** The process after one more recorded call. *)
Definition logged (c : Js.Call) (p : Js.Process) : Js.Process :=
  {| Js.cachedData := Js.cachedData p;
     Js.lastFetchTime := Js.lastFetchTime p;
     Js.draws := Js.draws p;
     Js.calls := Js.calls p ++ [c] |}.

(** The points of one storm when the sequence stands at [d0]. *)
Definition storm_points_from (rt : Js.Runtime) (d0 : nat)
    (storm : Fallback.Storm) : list Sample :=
  map (fun k => Fallback.storm_sample rt storm (Z.of_nat k)
                  (Js.random_seq rt (2 * k + d0))
                  (Js.random_seq rt (S (2 * k + d0))))
      (seq 0 80).

Fixpoint storms_from (rt : Js.Runtime) (d0 : nat) (l : list Fallback.Storm)
  : list (list Sample) :=
  match l with
  | [] => []
  | storm :: l' => storm_points_from rt d0 storm :: storms_from rt (160 + d0) l'
  end.

Definition background_points_from (rt : Js.Runtime) (d0 : nat) : list Sample :=
  map (fun k => Fallback.background_sample
                  (Js.random_seq rt (3 * k + d0))
                  (Js.random_seq rt (S (3 * k + d0)))
                  (Js.random_seq rt (S (S (3 * k + d0)))))
      (seq 0 150).

(** All the points of the generator when the sequence stands at [d0]. *)
Definition fallback_points (rt : Js.Runtime) (d0 : nat) : list Sample :=
  List.concat (storms_from rt d0 Fallback.stormCenters)
  ++ background_points_from rt (800 + d0).

(** The cache test of the radar handler fails: nothing is cached, or the
    cached snapshot is 120000 ms old or older. *)
Definition stale (up : Js.Upstream) (p : Js.Process) : Prop :=
  Js.cachedData p = None \/
  (Server.CACHE_DURATION <= Js.Date_now up - Js.lastFetchTime p)%Z.

(** The process after the handler has stored [snapshot] at time [now]. *)
Definition stored (snapshot : Js.Snapshot) (now : Z) (p : Js.Process)
  : Js.Process :=
  {| Js.cachedData := Some snapshot;
     Js.lastFetchTime := now;
     Js.draws := Js.draws p;
     Js.calls := Js.calls p |}.

(** The snapshot of the fallback path. *)
Definition generated_snapshot (rt : Js.Runtime) (up : Js.Upstream) (d0 : nat)
  : Js.Snapshot :=
  {| Js.timestamp := Server.compact_stamp (Js.Date_iso up);
     Js.data := Js.Arr (fallback_points rt d0);
     Js.count := Some 550%nat;
     Js.source := Server.GENERATED |}.

(** The snapshot of the live path: [data] holds the promise of the
    unawaited call and [count] is undefined. *)
Definition live_snapshot (stamp : string) (settled : outcome (list Sample))
  : Js.Snapshot :=
  {| Js.timestamp := stamp;
     Js.data := Js.Promise settled;
     Js.count := None;
     Js.source := Server.LIVE |}.

(** What the loop body of a storm computes for its point [i] from two
    successive draws: the point lies at the angle [angle_of i] and at a
    distance below the radius; its value is the decayed intensity plus the
    noise, clamped, then rounded. *)
Definition storm_point_ok (rt : Js.Runtime) (storm : Fallback.Storm) (i : Z)
    (s : Sample) : Prop :=
  exists n : nat,
    let distance := Js.random_seq rt n * Fallback.radius storm in
    let noise := (Js.random_seq rt (S n) - 0.5) * 15 in
    let angle := Fallback.angle_of i in
    let raw :=
      Qmax 5 (Qmin 75 (Fallback.intensity storm *
                       (1 - distance / Fallback.radius storm) + noise)) in
    (0 <= distance /\ distance < Fallback.radius storm) /\
    (- (75 # 10) <= noise /\ noise < 75 # 10) /\
    5 <= raw <= 75 /\
    lat s = fixed 4 (Fallback.storm_lat storm
                     + distance * Js.Math_cos rt angle) /\
    lon s = fixed 4 (Fallback.storm_lon storm
                     + distance * Js.Math_sin rt angle) /\
    value s = fixed 1 raw.

(** The 80 points of one storm. *)
Definition storm_chunk_ok (rt : Js.Runtime) (storm : Fallback.Storm)
    (chunk : list Sample) : Prop :=
  List.length chunk = 80%nat /\
  forall k, (k < 80)%nat ->
    exists s, nth_error chunk k = Some s /\
              storm_point_ok rt storm (Z.of_nat k) s.

(** A background point: three successive draws scatter it over the inner
    box that the constants of the second loop span. *)
Definition background_point_ok (rt : Js.Runtime) (s : Sample) : Prop :=
  (exists n : nat,
     lat s = fixed 4 (25 + Js.random_seq rt n * 25) /\
     lon s = fixed 4 (-125 + Js.random_seq rt (S n) * 55) /\
     value s = fixed 1 (5 + Js.random_seq rt (S (S n)) * 20)) /\
  25 <= lat s <= 50 /\ -125 <= lon s <= -70 /\ 5 <= value s <= 25.

End Statements.

(* ===================================================================== *)
(** ** Further inputs and predicates                                      *)
(* ===================================================================== *)

Module MoreExamples.
Local Open Scope string_scope.

(** The request of [Examples.live_world] again, one polling interval of
    the client later. *)
Definition live_world_next_poll : Js.Upstream :=
  {| Js.Date_now := 1704067440000;
     Js.Date_iso := "2024-01-01T00:04:00.000Z";
     Js.get_listing := Return Examples.page;
     Js.get_file := fun _ => Return Examples.gz_bytes;
     Js.zlib_gunzip := fun _ => Return Examples.grib_bytes;
     Js.grib2_parseBuffer := fun _ => Return (Some [Examples.even_grid]) |}.

End MoreExamples.

Module MoreStatements.
Import Text.
Local Open Scope string_scope.

(** The text [Date.prototype.toISOString] returns for the years 0 to 9999:
    [YYYY-MM-DDTHH:mm:ss.sssZ]. *)
Definition iso_shape (iso : string) : Prop :=
  exists y mo d h mi s ms,
    iso = y ++ "-" ++ mo ++ "-" ++ d ++ "T" ++ h ++ ":" ++ mi ++ ":" ++ s
            ++ "." ++ ms ++ "Z" /\
    lang (Rep 4 Digit) y /\ lang (Rep 2 Digit) mo /\ lang (Rep 2 Digit) d /\
    lang (Rep 2 Digit) h /\ lang (Rep 2 Digit) mi /\ lang (Rep 2 Digit) s /\
    lang (Rep 3 Digit) ms.

End MoreStatements.

Module Occurrences.
Local Open Scope string_scope.

(** The letter that opens a file name occurs nowhere in [s]. *)
Fixpoint no_M (s : string) : Prop :=
  match s with
  | EmptyString => True
  | String c u => c <> "M"%char /\ no_M u
  end.

End Occurrences.

Module Closeness.
Import Num.
Local Open Scope Q_scope.

(** What the loop body of a storm computes for its point [i] from two
    successive draws, stated so that it holds of the emitted decimals
    whether the arithmetic before the rounding is exact or in double
    precision: the point lies at the angle [angle_of i] and at a distance
    below the radius, its coordinates agree with that position to the
    fourth decimal, and its value agrees with the decayed intensity plus
    the noise, clamped, to the first decimal. *)
Definition storm_point_close (rt : Js.Runtime) (storm : Fallback.Storm)
    (i : Z) (s : Sample) : Prop :=
  exists n : nat,
    let distance := Js.random_seq rt n * Fallback.radius storm in
    let noise := (Js.random_seq rt (S n) - 0.5) * 15 in
    let angle := Fallback.angle_of i in
    let raw :=
      Qmax 5 (Qmin 75 (Fallback.intensity storm *
                       (1 - distance / Fallback.radius storm) + noise)) in
    (0 <= distance /\ distance < Fallback.radius storm) /\
    (- (75 # 10) <= noise /\ noise < 75 # 10) /\
    5 <= raw <= 75 /\
    Qabs (lat s - (Fallback.storm_lat storm
                   + distance * Js.Math_cos rt angle)) <= 1 # 10000 /\
    Qabs (lon s - (Fallback.storm_lon storm
                   + distance * Js.Math_sin rt angle)) <= 1 # 10000 /\
    Qabs (value s - raw) <= 1 # 10 /\
    5 <= value s <= 75.

(** The 80 points of one storm. *)
Definition storm_chunk_close (rt : Js.Runtime) (storm : Fallback.Storm)
    (chunk : list Sample) : Prop :=
  List.length chunk = 80%nat /\
  forall k, (k < 80)%nat ->
    exists s, nth_error chunk k = Some s /\
              storm_point_close rt storm (Z.of_nat k) s.

(** A storm point within the radius of its storm, to the fourth decimal. *)
Definition near_storm (storm : Fallback.Storm) (s : Sample) : Prop :=
  (Fallback.storm_lat storm - Fallback.radius storm - (1 # 10000) <= lat s
   <= Fallback.storm_lat storm + Fallback.radius storm + (1 # 10000)) /\
  (Fallback.storm_lon storm - Fallback.radius storm - (1 # 10000) <= lon s
   <= Fallback.storm_lon storm + Fallback.radius storm + (1 # 10000)).

(** The indices a strided loop visits below [n], in order. *)
Definition strided (n : Z) : list Z :=
  map (fun k => (Projector.sampleRate * Z.of_nat k)%Z)
      (seq 0 (Z.to_nat ((Z.max n 0 + 24) / 25))).

(** A cell of the grid: its row, its column and the number read there. *)
Record Cell : Type := { row : Z; column : Z; reading : Q }.

(** The cell at row [j] and column [i] when it passes the index guard and
    the filter. *)
Definition passing_cell (ni : Z) (data : list jsnum) (j i : Z) : list Cell :=
  if (j * ni + i <? Z.of_nat (List.length data))%Z then
    match nth_error data (Z.to_nat (j * ni + i)) with
    | Some (Fin v) =>
        if Qltb 5 v && Qltb v 80
        then [ {| row := j; column := i; reading := v |} ]
        else []
    | _ => []
    end
  else [].

(** The cells that pass, row by row and, in a row, column by column. *)
Definition passing_cells (message : Projector.Message) : list Cell :=
  let ni := Projector.or_default (Projector.header_ni message) 7000 in
  let nj := Projector.or_default (Projector.header_nj message) 3500 in
  flat_map (fun j =>
              flat_map (fun i => passing_cell ni (Projector.data message) j i)
                       (strided ni))
           (strided nj).

(** The position of a row and of a column in the bounding box. *)
Definition row_lat (nj j : Z) : Q :=
  Projector.minLat
  + inject_Z j * ((Projector.maxLat - Projector.minLat) / inject_Z nj).

Definition column_lon (ni i : Z) : Q :=
  Projector.minLon
  + inject_Z i * ((Projector.maxLon - Projector.minLon) / inject_Z ni).

(** [s] is the sample of the cell [c]: the reading rounded to one decimal,
    at the position of the cell to the fourth decimal. *)
Definition sample_of_cell (ni nj : Z) (c : Cell) (s : Sample) : Prop :=
  value s = fixed 1 (reading c) /\
  Qabs (lat s - row_lat nj (row c)) <= 1 # 10000 /\
  Qabs (lon s - column_lon ni (column c)) <= 1 # 10000.

End Closeness.

Module Lifetime.

(** The promise a snapshot holds, if any, has not rejected. A rejected
    promise that nobody handles ends a Node process (from version 15 on)
    once the response is out, and the variables of the process with it:
    what a later request finds is stated for snapshots of which this
    holds. *)
Definition no_rejection (s : Js.Snapshot) : Prop :=
  forall e, Js.data s <> Js.Promise (Throw e).

End Lifetime.

(* ===================================================================== *)
(** ** Frontend: [frontend/src/App.js]                                    *)
(* ===================================================================== *)

Module Frontend.
Import Num Js.
Local Open Scope string_scope.

(** What the client reads of a body sent by [res.json]. [JSON.stringify]
    writes an array as an array and a promise, which has no enumerable
    property of its own, as the empty object; a property whose value is
    undefined is left out, so that the client reads it as undefined. *)
Inductive WireData : Type :=
| WArray (l : list Sample)
| WEmptyObject.

Record Wire : Type := {
  w_timestamp : string;
  w_data : WireData;
  w_count : option nat;
  w_source : string
}.

Definition res_json (s : Snapshot) : Wire :=
  {| w_timestamp := timestamp s;
     w_data := match data s with
               | Arr l => WArray l
               | Promise _ => WEmptyObject
               end;
     w_count := count s;
     w_source := source s |}.

(** [setInterval(fetchRadarData, 120000)] *)
Definition POLL_INTERVAL : Z := 120000.

(** [getColorForValue] *)
Definition getColorForValue (value : Q) : string :=
  if Qltb value 15 then "#40E0D0"
  else if Qltb value 30 then "#00FF00"
  else if Qltb value 45 then "#FFFF00"
  else if Qltb value 60 then "#FF0000"
  else "#FF00FF".

(** A row of the legend: the bounds of its label and its colour. The last
    row, [60+], has no upper bound. *)
Record LegendRow : Type := {
  row_from : Q;
  row_to : option Q;
  row_color : string
}.

Definition legend : list LegendRow :=
  [ {| row_from := 5; row_to := Some 15%Q; row_color := "#40E0D0" |};
    {| row_from := 15; row_to := Some 30%Q; row_color := "#00FF00" |};
    {| row_from := 30; row_to := Some 45%Q; row_color := "#FFFF00" |};
    {| row_from := 45; row_to := Some 60%Q; row_color := "#FF0000" |};
    {| row_from := 60; row_to := None; row_color := "#FF00FF" |} ].

(** The state of the component [App]. *)
Record AppState : Type := {
  radarData : option Wire;
  loading : bool;
  error : option string;
  lastUpdate : option Z
}.

Definition initial : AppState :=
  {| radarData := None; loading := true; error := None; lastUpdate := None |}.

Definition setRadarData (d : option Wire) (st : AppState) : AppState :=
  {| radarData := d; loading := loading st; error := error st;
     lastUpdate := lastUpdate st |}.
Definition setLoading (b : bool) (st : AppState) : AppState :=
  {| radarData := radarData st; loading := b; error := error st;
     lastUpdate := lastUpdate st |}.
Definition setError (e : option string) (st : AppState) : AppState :=
  {| radarData := radarData st; loading := loading st; error := e;
     lastUpdate := lastUpdate st |}.
Definition setLastUpdate (t : option Z) (st : AppState) : AppState :=
  {| radarData := radarData st; loading := loading st; error := error st;
     lastUpdate := t |}.

(** What [fetch] and [response.json()] come to: the request fails, or a
    response arrives with its [ok] flag and the outcome of parsing its
    body. *)
Inductive Reply : Type :=
| NetworkError (message : string)
| Http (ok : bool) (json : outcome Wire).

(** [fetchRadarData], with the reply it gets and the time of
    [new Date()]. *)
Definition fetchRadarData (reply : Reply) (now : Z) (st : AppState)
  : AppState :=
  let st := setLoading true st in
  let st :=
    match reply with
    | NetworkError message => setError (Some message) st
    | Http false _ => setError (Some "Failed to fetch radar data") st
    | Http true (Throw message) => setError (Some message) st
    | Http true (Return data) =>
        setError None (setLastUpdate (Some now) (setRadarData (Some data) st))
    end in
  setLoading false st.

(** A [CircleMarker] with its [Popup]: the centre, the colour, and the
    number whose one-decimal print the popup shows. *)
Record Marker : Type := {
  center : Q * Q;
  fillColor : string;
  popup : Q
}.

(** [radarData && radarData.data && radarData.data.map(...)]: an object
    that is not an array has no [map], and calling it throws. *)
Definition render_markers (radarData : option Wire)
  : outcome (list Marker) :=
  match radarData with
  | None => Return []
  | Some body =>
      match w_data body with
      | WArray l =>
          Return (map (fun point =>
                         {| center := (lat point, lon point);
                            fillColor := getColorForValue (value point);
                            popup := fixed 1 (value point) |}) l)
      | WEmptyObject => Throw "radarData.data.map is not a function"
      end
  end.

(** The client after a sequence of replies, each with its time. *)
Definition after_replies (replies : list (Reply * Z)) (st : AppState)
  : AppState :=
  fold_left (fun st r => fetchRadarData (fst r) (snd r) st) replies st.

(** The body of the last reply that was read, if any. *)
Fixpoint last_body (replies : list (Reply * Z)) (before : option Wire)
  : option Wire :=
  match replies with
  | [] => before
  | (Http true (Return data), _) :: rest => last_body rest (Some data)
  | _ :: rest => last_body rest before
  end.

Definition succeeded (r : Reply) : bool :=
  match r with
  | Http true (Return _) => true
  | _ => false
  end.

End Frontend.

(* ===================================================================== *)
(** * Properties                                                          *)
(* ===================================================================== *)

(** ** The matcher agrees with the language of the expression *)

Module TextFacts.
Import Text.
Local Open Scope string_scope.

Lemma append_nil_r (s : string) : s ++ "" = s.
Proof. induction s as [|c s IH]; simpl; [reflexivity | now rewrite IH]. Qed.

Lemma append_assoc (a b c : string) : (a ++ b) ++ c = a ++ (b ++ c).
Proof. induction a as [|x a IH]; simpl; [reflexivity | now rewrite IH]. Qed.

Lemma length_append (a b : string) :
  length (a ++ b) = (length a + length b)%nat.
Proof. induction a as [|x a IH]; simpl; [reflexivity | now rewrite IH]. Qed.

Lemma take_append (w rest : string) :
  take (length (w ++ rest) - length rest) (w ++ rest) = w.
Proof.
  rewrite length_append.
  replace (length w + length rest - length rest)%nat with (length w) by lia.
  induction w as [|c w IH]; simpl.
  - destruct rest; reflexivity.
  - now rewrite IH.
Qed.

Lemma lit_at_spec (p s rest : string) :
  lit_at p s = Some rest <-> s = p ++ rest.
Proof.
  revert s; induction p as [|a p IH]; intros s; simpl.
  - split; congruence.
  - destruct s as [|b s]; [split; discriminate|].
    destruct (Ascii.eqb_spec a b) as [->|Hne].
    + rewrite IH. split; congruence.
    + split; [discriminate | intros H; injection H; congruence].
Qed.

Lemma m_Rep_S (n : nat) (r : regex) (s : string) k :
  m (Rep (S n) r) s k = m r s (fun s' => m (Rep n r) s' k).
Proof. reflexivity. Qed.

Lemma lang_Rep_S (n : nat) (r : regex) (w : string) :
  lang (Rep (S n) r) w <->
  exists w1 w2, w = w1 ++ w2 /\ lang r w1 /\ lang (Rep n r) w2.
Proof. reflexivity. Qed.

(** Soundness: whatever the matcher accepts splits the text into a word
    of the language and a rest the continuation accepted. *)
Lemma m_sound (r : regex) :
  forall s k x, m r s k = Some x ->
  exists w rest, s = w ++ rest /\ lang r w /\ k rest = Some x.
Proof.
  induction r as [p | | n r IH | r1 IH1 r2 IH2 | r IH]; intros s k x H.
  - simpl in H. destruct (lit_at p s) as [rest|] eqn:E; [|discriminate].
    apply lit_at_spec in E. exists p, rest. simpl. auto.
  - simpl in H. destruct s as [|c s]; [discriminate|].
    destruct (is_digit c) eqn:E; [|discriminate].
    exists (String c ""), s. simpl. eauto.
  - revert s k x H. induction n as [|n IHn]; intros s k x H.
    + exists "", s. simpl in *. auto.
    + rewrite m_Rep_S in H. apply IH in H.
      destruct H as (w1 & rest1 & -> & L1 & H).
      apply IHn in H. destruct H as (w2 & rest & -> & L2 & H).
      exists (w1 ++ w2), rest. rewrite append_assoc.
      split; [reflexivity|]. split; [|assumption].
      apply lang_Rep_S. eauto.
  - simpl in H. apply IH1 in H. destruct H as (w1 & rest1 & -> & L1 & H).
    apply IH2 in H. destruct H as (w2 & rest & -> & L2 & H).
    exists (w1 ++ w2), rest. rewrite append_assoc. simpl. eauto 8.
  - simpl in H. destruct (m r s k) as [y|] eqn:E.
    + injection H as <-. apply IH in E.
      destruct E as (w & rest & -> & L & E). exists w, rest. simpl. auto.
    + exists "", s. simpl. auto.
Qed.

(** Completeness: a word of the language in front of a text the
    continuation accepts is never rejected. *)
Lemma m_complete (r : regex) :
  forall w post k, lang r w -> k post <> None -> m r (w ++ post) k <> None.
Proof.
  induction r as [p | | n r IH | r1 IH1 r2 IH2 | r IH]; intros w post k L K.
  - simpl in *. subst w.
    destruct (lit_at p (p ++ post)) as [rest|] eqn:E.
    + apply lit_at_spec in E.
      assert (rest = post) as ->; [|assumption].
      clear -E. induction p; simpl in E; [congruence | injection E; auto].
    + assert (lit_at p (p ++ post) = Some post) by now apply lit_at_spec.
      congruence.
  - simpl in L. destruct L as (c & D & ->). simpl. now rewrite D.
  - revert w post k L K. induction n as [|n IHn]; intros w post k L K.
    + simpl in L. subst w. simpl. assumption.
    + apply lang_Rep_S in L. destruct L as (w1 & w2 & -> & L1 & L2).
      rewrite m_Rep_S, append_assoc. apply IH; [assumption|].
      now apply IHn.
  - simpl in L. destruct L as (w1 & w2 & -> & L1 & L2).
    simpl. rewrite append_assoc. apply IH1; [assumption|]. now apply IH2.
  - simpl in *. destruct (m r (w ++ post) k) eqn:E; [discriminate|].
    destruct L as [L | ->]; [|assumption].
    exfalso. now apply (IH w post k L K).
Qed.

Lemma match_here_sound (r : regex) (s w : string) :
  match_here r s = Some w -> lang r w /\ exists rest, s = w ++ rest.
Proof.
  unfold match_here. destruct (m r s _) as [rest|] eqn:E; [|discriminate].
  intros H. injection H as <-.
  apply m_sound in E. destruct E as (w & rest' & -> & L & E).
  injection E as ->. rewrite take_append. eauto.
Qed.

Lemma match_here_complete (r : regex) (w post : string) :
  lang r w -> match_here r (w ++ post) <> None.
Proof.
  intros L. unfold match_here.
  destruct (m r (w ++ post) _) eqn:E; [discriminate|].
  exfalso. revert E. apply m_complete; [assumption | discriminate].
Qed.

Lemma scan_sound (r : regex) (s : string) :
  forall skip w, In w (scan r skip s) -> lang r w.
Proof.
  induction s as [|c s IH]; intros skip w H.
  - destruct skip; simpl in H; [|contradiction].
    destruct (match_here r "") as [w'|] eqn:E; simpl in H; [|contradiction].
    destruct H as [<-|[]]. now apply match_here_sound in E.
  - destruct skip; simpl in H; [|eauto].
    destruct (match_here r (String c s)) as [w'|] eqn:E; [|eauto].
    destruct H as [<-|H]; [now apply match_here_sound in E | eauto].
Qed.

(** Every match is a piece of the scanned text. *)
Lemma scan_substring (r : regex) (s : string) :
  forall skip w, In w (scan r skip s) ->
  exists pre post, s = pre ++ w ++ post.
Proof.
  induction s as [|c s IH]; intros skip w H.
  - destruct skip; simpl in H; [|contradiction].
    destruct (match_here r "") as [w'|] eqn:E; simpl in H; [|contradiction].
    destruct H as [<-|[]]. apply match_here_sound in E.
    destruct E as (_ & rest & E). exists "", rest. exact E.
  - assert (forall n, In w (scan r n s) ->
                      exists pre post, String c s = pre ++ w ++ post) as Tail.
    { intros n Hn. destruct (IH _ _ Hn) as (pre & post & ->).
      exists (String c pre), post. reflexivity. }
    destruct skip; simpl in H; [|eauto].
    destruct (match_here r (String c s)) as [w'|] eqn:E; [|eauto].
    destruct H as [<-|H]; [|eauto].
    apply match_here_sound in E. destruct E as (_ & rest & E).
    exists "", rest. exact E.
Qed.

Lemma scan_complete (r : regex) (w post : string) :
  lang r w -> forall pre, scan r 0 (pre ++ w ++ post) <> [].
Proof.
  intros L pre. induction pre as [|c pre IH]; simpl.
  - pose proof (match_here_complete r w post L) as H.
    destruct (w ++ post) eqn:E; simpl;
      destruct (match_here r _); try discriminate; congruence.
  - destruct (match_here r (String c (pre ++ w ++ post)));
      [discriminate | exact IH].
Qed.

Lemma search_sound (r : regex) (s w : string) :
  search r s = Some w -> lang r w.
Proof.
  induction s as [|c s IH]; simpl;
    destruct (match_here r _) as [w'|] eqn:E; try discriminate.
  - intros H. injection H as <-. now apply match_here_sound in E.
  - intros H. injection H as <-. now apply match_here_sound in E.
  - exact IH.
Qed.

Lemma search_complete (r : regex) (w post : string) :
  lang r w -> forall pre, search r (pre ++ w ++ post) <> None.
Proof.
  intros L pre. induction pre as [|c pre IH]; simpl.
  - pose proof (match_here_complete r w post L) as H.
    destruct (w ++ post) eqn:E; simpl;
      destruct (match_here r _); try discriminate; congruence.
  - destruct (match_here r (String c (pre ++ w ++ post)));
      [discriminate | exact IH].
Qed.

End TextFacts.

(** ** Sorting file names *)

Module SortFacts.
Import Text.
Local Open Scope string_scope.

Lemma str_le_refl (a : string) : str_le a a.
Proof.
  unfold str_le. destruct (String.leb_total a a); assumption.
Qed.

Lemma str_le_trans (a b c : string) : str_le a b -> str_le b c -> str_le a c.
Proof.
  unfold str_le, String.leb. revert b c.
  induction a as [|x a IH]; intros [|y b] [|z c]; simpl; try congruence.
  unfold Ascii.compare.
  destruct (N.compare_spec (N_of_ascii x) (N_of_ascii y));
    destruct (N.compare_spec (N_of_ascii y) (N_of_ascii z));
    destruct (N.compare_spec (N_of_ascii x) (N_of_ascii z));
    try lia; try congruence; auto.
  apply IH.
Qed.

Lemma insert_sorted_In (x y : string) (l : list string) :
  In y (insert_sorted x l) <-> y = x \/ In y l.
Proof.
  induction l as [|z l IH]; simpl.
  - intuition.
  - destruct (String.leb x z); simpl; rewrite ?IH; intuition.
Qed.

Lemma Array_sort_In (y : string) (l : list string) :
  In y (Array_sort l) <-> In y l.
Proof.
  induction l as [|x l IH]; simpl; [reflexivity|].
  rewrite insert_sorted_In, IH. intuition.
Qed.

Lemma insert_sorted_sorted (x : string) (l : list string) :
  StronglySorted str_le l -> StronglySorted str_le (insert_sorted x l).
Proof.
  induction 1 as [|z l Hs IH Hz]; simpl.
  - constructor; constructor.
  - destruct (String.leb x z) eqn:E.
    + constructor; [constructor; assumption|].
      constructor; [exact E|].
      rewrite Forall_forall in *. intros y Hy.
      apply str_le_trans with z; [exact E | auto].
    + constructor; [assumption|].
      rewrite Forall_forall in *. intros y Hy.
      apply insert_sorted_In in Hy. destruct Hy as [->|Hy]; [|auto].
      destruct (String.leb_total x z) as [H|H]; [congruence | exact H].
Qed.

Lemma Array_sort_sorted (l : list string) : StronglySorted str_le (Array_sort l).
Proof.
  induction l; simpl; [constructor | now apply insert_sorted_sorted].
Qed.

Lemma sorted_last_greatest (l : list string) (x : string) :
  StronglySorted str_le (l ++ [x])%list ->
  forall y, In y (l ++ [x])%list -> str_le y x.
Proof.
  induction l as [|z l IH]; simpl; intros Hs y Hy.
  - destruct Hy as [<-|[]]. apply str_le_refl.
  - inversion Hs as [|? ? Hs' Hall]; subst.
    destruct Hy as [<-|Hy]; [|auto].
    rewrite Forall_forall in Hall. apply Hall, in_or_app. right. now left.
Qed.

(** The first element of the sorted and reversed array is an element of
    the array and bounds every other one. *)
Lemma sort_reverse_head (l : list string) (x : string) (t : list string) :
  rev (Array_sort l) = x :: t ->
  In x l /\ forall y, In y l -> str_le y x.
Proof.
  intros H.
  assert (Array_sort l = (rev t ++ [x])%list) as E.
  { rewrite <- (rev_involutive (Array_sort l)), H. reflexivity. }
  split.
  - apply Array_sort_In. rewrite E. apply in_or_app. right. now left.
  - intros y Hy. apply (@sorted_last_greatest (rev t)).
    + rewrite <- E. apply Array_sort_sorted.
    + rewrite <- E. now apply Array_sort_In.
Qed.

Lemma sorted_snoc (R : string -> string -> Prop) (l : list string) (z : string) :
  StronglySorted R l -> (forall y, In y l -> R y z) ->
  StronglySorted R (l ++ [z])%list.
Proof.
  induction 1 as [|u v Hv IH Hu]; simpl; intros Hz.
  - constructor; constructor.
  - constructor; [apply IH; auto|].
    rewrite Forall_forall in *. intros y Hy.
    apply in_app_or in Hy. destruct Hy as [Hy|[<-|[]]]; auto.
Qed.

Lemma sort_reverse_descending (l : list string) :
  StronglySorted (fun a b => str_le b a) (rev (Array_sort l)).
Proof.
  pose proof (Array_sort_sorted l) as H.
  induction H as [|z s Hs IH Hz]; simpl; [constructor|].
  apply sorted_snoc; [exact IH|].
  intros y Hy. rewrite Forall_forall in Hz. apply Hz. now apply in_rev.
Qed.

Lemma take_substring (s : string) :
  forall n, (n <= length s)%nat ->
  s = take n s ++ substring n (length s - n) s.
Proof.
  induction s as [|c s IH]; intros [|n] Hn; simpl in *; try lia.
  - reflexivity.
  - f_equal. clear. induction s as [|d s IH]; simpl; [reflexivity|].
    f_equal. assumption.
  - f_equal. apply IH. lia.
Qed.

Lemma substring_append (base suf : string) :
  substring (length base) (length suf) (base ++ suf) = suf.
Proof.
  induction base as [|c base IH]; simpl; [|exact IH].
  induction suf as [|d suf IH]; simpl; [reflexivity|].
  destruct suf; simpl in *; f_equal; assumption.
Qed.

(** [endsWith] holds exactly of the strings that are some text followed
    by the suffix. *)
Lemma endsWith_spec (s suf : string) :
  endsWith s suf = true <-> exists base, s = base ++ suf.
Proof.
  unfold endsWith. rewrite andb_true_iff, Nat.leb_le, String.eqb_eq. split.
  - intros [Hlen E]. exists (take (length s - length suf) s).
    assert (length s - length suf <= length s)%nat as Hn by lia.
    pose proof (take_substring s Hn) as T.
    replace (length s - (length s - length suf))%nat with (length suf) in T
      by lia.
    rewrite E in T. exact T.
  - intros [base ->]. rewrite TextFacts.length_append. split; [lia|].
    replace (length base + length suf - length suf)%nat with (length base)
      by lia.
    apply substring_append.
Qed.

End SortFacts.

(** ** The scanner *)

Module ScannerFacts.
Import Text Scanner TextFacts SortFacts.
Local Open Scope string_scope.

Lemma allFiles_scan (body : string) : allFiles body = scan file_re 0 body.
Proof.
  unfold allFiles, match_g. destruct (scan file_re 0 body); reflexivity.
Qed.

Lemma allFiles_match (body g : string) :
  In g (allFiles body) -> lang file_re g.
Proof. rewrite allFiles_scan. apply scan_sound. Qed.

(** What [on_listing_end] resolves with is the head of the sorted and
    reversed array of matches. *)
Lemma on_listing_end_Return (body : string) (file : RemoteFileRef) :
  on_listing_end body = Return file ->
  exists t, rev (Array_sort (allFiles body)) = filename file :: t /\
            isCompressed file = endsWith (filename file) ".gz".
Proof.
  unfold on_listing_end.
  destruct (List.length (allFiles body) =? 0)%nat; [discriminate|].
  destruct (rev (Array_sort (allFiles body))) as [|x t]; [discriminate|].
  intros H. injection H as <-. exists t. split; reflexivity.
Qed.

Lemma Rep_Digit_length (n : nat) :
  forall w, lang (Rep n Digit) w -> length w = n.
Proof.
  induction n as [|n IH]; intros w L.
  - simpl in L. now subst.
  - apply lang_Rep_S in L. destruct L as (w1 & w2 & -> & (c & _ & ->) & L2).
    simpl. f_equal. now apply IH.
Qed.

Lemma stamp_length (w : string) : lang stamp_re w -> length w = 15%nat.
Proof.
  intros (d8 & w' & -> & L8 & (dash & d6 & -> & -> & L6)).
  rewrite !length_append, (Rep_Digit_length _ _ L8), (Rep_Digit_length _ _ L6).
  reflexivity.
Qed.

Lemma append_same_length (a b c d : string) :
  a ++ b = c ++ d -> length a = length c -> a = c.
Proof.
  revert c. induction a as [|x a IH]; intros [|y c]; simpl; try discriminate.
  - reflexivity.
  - intros E Hl. injection E as -> E. f_equal. apply IH; [assumption | lia].
Qed.

(** A matched file name is the fixed prefix, a date-time token and a tail. *)
Lemma file_re_shape (w : string) :
  lang file_re w ->
  exists stamp tail,
    w = "MRMS_ReflectivityAtLowestAltitude_" ++ stamp ++ tail /\
    lang stamp_re stamp.
Proof.
  intros (p & w1 & -> & -> & (d8 & w2 & -> & L8 &
          (dash & w3 & -> & -> & (d6 & tail & -> & L6 & _)))).
  exists (d8 ++ "-" ++ d6), tail. split.
  - now rewrite !append_assoc.
  - exists d8, ("-" ++ d6). split; [reflexivity|]. split; [assumption|].
    exists "-", d6. repeat split; assumption.
Qed.

Lemma search_here (r : regex) (s w : string) :
  match_here r s = Some w -> search r s = Some w.
Proof. intros H. destruct s; simpl; now rewrite H. Qed.

Lemma search_skip_nondigit (c : ascii) (s : string) :
  is_digit c = false -> search stamp_re (String c s) = search stamp_re s.
Proof.
  intros H. cbn [search]. unfold match_here, stamp_re.
  cbn [m]. rewrite H. reflexivity.
Qed.

(** The prefix holds no digit, so the leftmost match of the token
    expression in a file name is the token behind the prefix. *)
Lemma search_stamp_in_file (stamp tail : string) :
  lang stamp_re stamp ->
  search stamp_re ("MRMS_ReflectivityAtLowestAltitude_" ++ stamp ++ tail)
  = Some stamp.
Proof.
  intros L. cbn [append].
  repeat (rewrite search_skip_nondigit by reflexivity).
  destruct (match_here stamp_re (stamp ++ tail)) as [w|] eqn:E.
  - rewrite (search_here _ _ E). f_equal.
    apply match_here_sound in E. destruct E as (Lw & rest & E).
    symmetry in E. apply append_same_length in E; [assumption|].
    now rewrite (stamp_length L), (stamp_length Lw).
  - exfalso. revert E. now apply match_here_complete.
Qed.

Lemma leb_cons_same (c : ascii) (a b : string) :
  String.leb (String c a) (String c b) = String.leb a b.
Proof.
  unfold String.leb. cbn [String.compare].
  assert (Ascii.compare c c = Eq) as ->; [|reflexivity].
  unfold Ascii.compare. apply N.compare_refl.
Qed.

(** A text is at most any text it begins. *)
Lemma str_le_prefix (g x : string) : str_le g (g ++ x).
Proof.
  unfold str_le. induction g as [|c g IH]; simpl.
  - destruct x; reflexivity.
  - rewrite leb_cons_same. exact IH.
Qed.

Lemma no_M_app (a b : string) :
  Occurrences.no_M (a ++ b) <-> Occurrences.no_M a /\ Occurrences.no_M b.
Proof.
  induction a as [|c a IH]; simpl; [tauto | rewrite IH; tauto].
Qed.

Lemma no_M_digits (n : nat) :
  forall w, lang (Rep n Digit) w -> Occurrences.no_M w.
Proof.
  induction n as [|n IH]; intros w L.
  - simpl in L. subst. exact I.
  - apply lang_Rep_S in L. destruct L as (w1 & w2 & -> & (c & D & ->) & L2).
    simpl. split; [|now apply IH].
    intros ->. discriminate D.
Qed.

(** A text that opens with the letter does not begin inside a text that
    has none. *)
Lemma overlap_free (pre : string) :
  forall u t rest,
    Occurrences.no_M u -> pre ++ String "M" t = u ++ rest ->
    (length u <= length pre)%nat.
Proof.
  induction pre as [|c pre IH]; intros [|a u] t rest Hu E; simpl in *;
    try lia.
  - injection E as <- _. destruct Hu as [Hu _]. now elim Hu.
  - injection E as _ E. destruct Hu as [_ Hu].
    specialize (IH u t rest Hu E). lia.
Qed.

(** A word of the file expression is [MRMS] and a text without the
    letter. *)
Lemma file_re_letters (w : string) :
  lang file_re w -> exists v, w = "MRMS" ++ v /\ Occurrences.no_M v.
Proof.
  intros (p & w1 & -> & -> & (d8 & w2 & -> & L8 &
          (dash & w3 & -> & -> & (d6 & tail & -> & L6 &
            (ext & opt & -> & -> & Hopt))))).
  exists ("_ReflectivityAtLowestAltitude_"
          ++ d8 ++ "-" ++ d6 ++ ".grib2" ++ opt).
  split; [reflexivity|].
  assert (Occurrences.no_M opt) as Ho
      by (destruct Hopt as [Ho | ->]; [simpl in Ho; subst|];
          cbn; repeat split; discriminate).
  repeat (apply no_M_app; split);
    try (cbn; repeat split; discriminate);
    try exact Ho; eapply no_M_digits; eassumption.
Qed.

(** No match of the file expression runs into a later occurrence of a
    file name: it ends before the occurrence begins. *)
Lemma no_overlap (pre g post w : string) :
  match_here file_re (pre ++ g ++ post) = Some w ->
  pre <> "" -> lang file_re g ->
  (length w <= length pre)%nat.
Proof.
  intros Hm Hpre Lg.
  apply match_here_sound in Hm. destruct Hm as (Lw & rest & E).
  apply file_re_letters in Lw. destruct Lw as (v & -> & Hv).
  apply file_re_letters in Lg. destruct Lg as (vg & -> & _).
  destruct pre as [|c1 pre]; [congruence|].
  destruct pre as [|c2 pre]; [discriminate E|].
  destruct pre as [|c3 pre]; [discriminate E|].
  destruct pre as [|c4 pre]; [discriminate E|].
  cbn [append] in E. injection E as _ _ _ _ E.
  pose proof (@overlap_free pre v _ rest Hv E) as H.
  rewrite length_append. cbn [length]. lia.
Qed.

(** The scan reaches every occurrence of a file name with nothing left
    to skip, and so records the match that begins there. *)
Lemma scan_reaches (g post : string) :
  lang file_re g ->
  forall pre skip, (skip <= length pre)%nat ->
  exists w, In w (scan file_re skip (pre ++ g ++ post)) /\
            match_here file_re (g ++ post) = Some w.
Proof.
  intros Lg. induction pre as [|c pre IH]; intros skip Hskip.
  - assert (skip = 0%nat) as -> by (simpl in Hskip; lia).
    destruct (match_here file_re (g ++ post)) as [w|] eqn:E.
    + exists w. split; [|reflexivity]. cbn [append].
      destruct (g ++ post); cbn [scan]; rewrite E; now left.
    + exfalso. revert E. now apply match_here_complete.
  - destruct skip as [|skip]; cbn [append scan].
    + destruct (match_here file_re (String c (pre ++ g ++ post)))
        as [w'|] eqn:E.
      * assert (length w' <= length (String c pre))%nat as Hlen
            by (apply (@no_overlap (String c pre) g post w' E);
                [discriminate | exact Lg]).
        destruct (IH (length w' - 1)%nat) as (w & Hin & Hw);
          [cbn [length] in Hlen; lia|].
        exists w. split; [now right | exact Hw].
      * apply (IH 0%nat). lia.
    + apply IH. cbn [length] in Hskip. lia.
Qed.

Lemma lit_at_append (p s : string) : lit_at p (p ++ s) = Some s.
Proof. now apply lit_at_spec. Qed.

Lemma m_Lit_append (p s : string) (k : string -> option string) :
  m (Lit p) (p ++ s) k = k s.
Proof. cbn [m]. now rewrite lit_at_append. Qed.

Lemma m_digits_append (n : nat) :
  forall d s (k : string -> option string),
    lang (Rep n Digit) d -> m (Rep n Digit) (d ++ s) k = k s.
Proof.
  induction n as [|n IH]; intros d s k L.
  - simpl in L. now subst.
  - apply lang_Rep_S in L. destruct L as (w1 & w2 & -> & (c & D & ->) & L2).
    rewrite m_Rep_S. cbn [append m]. rewrite D. now apply IH.
Qed.

Lemma m_Seq (r1 r2 : regex) (s : string) (k : string -> option string) :
  m (Seq r1 r2) s k = m r1 s (fun s' => m r2 s' k).
Proof. reflexivity. Qed.

Lemma m_Opt (r : regex) (s : string) (k : string -> option string) :
  m (Opt r) s k = match m r s k with Some rest => Some rest | None => k s end.
Proof. reflexivity. Qed.

(** Past the part of a file name that has no choice, the file expression
    has its option left to match. *)
Lemma m_file_name (d8 d6 tail : string) (k : string -> option string) :
  lang (Rep 8 Digit) d8 -> lang (Rep 6 Digit) d6 ->
  m file_re (("MRMS_ReflectivityAtLowestAltitude_"
              ++ d8 ++ "-" ++ d6 ++ ".grib2") ++ tail) k
  = m (Opt (Lit ".gz")) tail k.
Proof.
  intros L8 L6. unfold file_re. rewrite !append_assoc.
  rewrite m_Seq, m_Lit_append. cbv beta.
  rewrite m_Seq, (@m_digits_append 8 d8 _ _ L8). cbv beta.
  rewrite m_Seq, m_Lit_append. cbv beta.
  rewrite m_Seq, (@m_digits_append 6 d6 _ _ L6). cbv beta.
  rewrite m_Seq, m_Lit_append. reflexivity.
Qed.

Lemma greedy_tail (name opt post w : string) :
  (forall tail k, m file_re (name ++ tail) k = m (Opt (Lit ".gz")) tail k) ->
  opt = ".gz" \/ opt = "" ->
  match_here file_re ((name ++ opt) ++ post) = Some w ->
  w = name ++ opt \/ w = (name ++ opt) ++ ".gz".
Proof.
  intros Hname Hopt Hm. unfold match_here in Hm.
  assert (m file_re ((name ++ opt) ++ post) (fun rest => Some rest)
          = m (Opt (Lit ".gz")) (opt ++ post) (fun rest => Some rest)) as Em
      by (rewrite append_assoc; apply Hname).
  rewrite Em in Hm. clear Em. rewrite m_Opt in Hm.
  destruct Hopt as [-> | ->].
  - rewrite m_Lit_append in Hm. injection Hm as <-. left. apply take_append.
  - change ("" ++ post) with post in Hm. unfold m in Hm.
    destruct (lit_at ".gz" post) as [rest|] eqn:G.
    + apply lit_at_spec in G. subst post. injection Hm as <-. right.
      change (String "." (String "g" (String "z" rest))) with (".gz" ++ rest).
      rewrite <- (append_assoc (name ++ "") ".gz" rest). apply take_append.
    + injection Hm as <-. left. apply take_append.
Qed.

(** The match that begins at an occurrence of a file name is that name,
    or that name and the [.gz] that follows it: the option is greedy. *)
Lemma match_at_occurrence (g post w : string) :
  lang file_re g -> match_here file_re (g ++ post) = Some w ->
  w = g \/ w = g ++ ".gz".
Proof.
  intros (p & w1 & -> & -> & (d8 & w2 & -> & L8 &
          (dash & w3 & -> & -> & (d6 & tail & -> & L6 &
            (ext & opt & -> & -> & Hopt))))) Hm.
  assert ("MRMS_ReflectivityAtLowestAltitude_"
          ++ d8 ++ "-" ++ d6 ++ ".grib2" ++ opt
          = ("MRMS_ReflectivityAtLowestAltitude_"
             ++ d8 ++ "-" ++ d6 ++ ".grib2") ++ opt) as E
      by now rewrite !append_assoc.
  rewrite E in *. apply greedy_tail with post; [| |exact Hm].
  - intros t k. now apply m_file_name.
  - destruct Hopt as [Ho | ->]; [left; exact Ho | right; reflexivity].
Qed.

(** Every occurrence of a file name in the listing is at most the name
    the scanner resolves with. *)
Lemma occurrence_below_latest (body pre g post : string)
    (file : RemoteFileRef) :
  on_listing_end body = Return file ->
  body = pre ++ g ++ post -> lang file_re g ->
  str_le g (filename file).
Proof.
  intros H -> Lg.
  apply on_listing_end_Return in H. destruct H as (t & R & _).
  apply sort_reverse_head in R. destruct R as [_ Hmax].
  destruct (@scan_reaches g post Lg pre 0%nat ltac:(lia)) as (w & Hin & Hw).
  rewrite <- allFiles_scan in Hin.
  apply str_le_trans with w; [|now apply Hmax].
  destruct (@match_at_occurrence g post w Lg Hw) as [-> | ->].
  - apply str_le_refl.
  - apply str_le_prefix.
Qed.

(** The name the scanner resolves with occurs in the listing. *)
Lemma latest_occurs (body : string) (file : RemoteFileRef) :
  on_listing_end body = Return file ->
  exists pre post, body = pre ++ filename file ++ post.
Proof.
  intros H. apply on_listing_end_Return in H. destruct H as (t & R & _).
  apply sort_reverse_head in R. destruct R as [Hin _].
  rewrite allFiles_scan in Hin. now apply scan_substring in Hin.
Qed.

(** C5. When the listing contains a file name of the pattern, the scanner
    resolves with the first element of the matches sorted and reversed.
    That name occurs in the listing and matches the pattern; no match, and
    no file name of the pattern occurring anywhere in the listing, is
    lexicographically greater; and [isCompressed] is true exactly when the
    name ends in [.gz]. *)
Theorem C5_scanner_selects_latest (pre f post : string) :
  lang file_re f ->
  exists latest,
    on_listing_end (pre ++ f ++ post)
    = Return {| filename := latest;
                isCompressed := endsWith latest ".gz" |} /\
    hd_error (rev (Array_sort (allFiles (pre ++ f ++ post)))) = Some latest /\
    In latest (allFiles (pre ++ f ++ post)) /\
    lang file_re latest /\
    (forall g, In g (allFiles (pre ++ f ++ post)) -> str_le g latest) /\
    (endsWith latest ".gz" = true <-> exists base, latest = base ++ ".gz") /\
    (exists pre' post', pre ++ f ++ post = pre' ++ latest ++ post') /\
    (forall pre' g post',
        pre ++ f ++ post = pre' ++ g ++ post' -> lang file_re g ->
        str_le g latest).
Proof.
  intros L. set (body := pre ++ f ++ post).
  assert (allFiles body <> []) as Hne.
  { rewrite allFiles_scan. now apply scan_complete. }
  assert (exists latest,
             on_listing_end body
             = Return {| filename := latest;
                         isCompressed := endsWith latest ".gz" |} /\
             hd_error (rev (Array_sort (allFiles body))) = Some latest)
    as (latest & R & Hhd).
  { unfold on_listing_end.
    destruct (rev (Array_sort (allFiles body))) as [|latest t] eqn:E.
    - exfalso. destruct (allFiles body) as [|x l] eqn:Ef; [congruence|].
      assert (In x (Array_sort (x :: l))) as Hin
          by (apply Array_sort_In; now left).
      apply in_rev in Hin. rewrite E in Hin. exact Hin.
    - exists latest.
      destruct (allFiles body) as [|x l] eqn:Ef; [congruence|].
      split; reflexivity. }
  exists latest. split; [exact R|]. split; [exact Hhd|].
  destruct (@on_listing_end_Return body _ R) as (t & E & _).
  destruct (sort_reverse_head _ E) as [Hin Hmax]. cbn [filename] in *.
  split; [exact Hin|]. split; [now apply allFiles_match with body|].
  split; [exact Hmax|]. split; [apply endsWith_spec|]. split.
  - exact (@latest_occurs body _ R).
  - intros pre' g post' Eb Lg.
    exact (@occurrence_below_latest body pre' g post' _ R Eb Lg).
Qed.

Lemma C5_scanner_selects_latest_witness :
  lang file_re Examples.newer /\
  exists latest,
    on_listing_end ("<a>" ++ Examples.newer ++ "</a>")
    = Return {| filename := latest;
                isCompressed := endsWith latest ".gz" |} /\
    hd_error (rev (Array_sort (allFiles ("<a>" ++ Examples.newer ++ "</a>"))))
    = Some latest /\
    In latest (allFiles ("<a>" ++ Examples.newer ++ "</a>")) /\
    lang file_re latest /\
    (forall g, In g (allFiles ("<a>" ++ Examples.newer ++ "</a>")) ->
               str_le g latest) /\
    (endsWith latest ".gz" = true <-> exists base, latest = base ++ ".gz") /\
    (exists pre' post',
        "<a>" ++ Examples.newer ++ "</a>" = pre' ++ latest ++ post') /\
    (forall pre' g post',
        "<a>" ++ Examples.newer ++ "</a>" = pre' ++ g ++ post' ->
        lang file_re g -> str_le g latest).
Proof.
  assert (lang file_re Examples.newer) as L.
  { apply (@match_here_sound file_re Examples.newer Examples.newer).
    vm_compute. reflexivity. }
  split; [exact L|].
  exact (C5_scanner_selects_latest "<a>" "</a>" L).
Defined.

(** The scenario of the specification: of the two listed files the later,
    compressed one is selected. *)
Example scanner_scenario :
  on_listing_end Examples.page
  = Return {| filename := Examples.newer; isCompressed := true |}.
Proof. vm_compute. reflexivity. Qed.

(** A resolved file name is the fixed prefix, a date-time token and a
    tail. *)
Lemma resolved_name_shape (body : string) (file : RemoteFileRef) :
  on_listing_end body = Return file ->
  exists stamp tail,
    filename file = "MRMS_ReflectivityAtLowestAltitude_" ++ stamp ++ tail /\
    lang stamp_re stamp.
Proof.
  intros H. apply on_listing_end_Return in H. destruct H as (t & E & _).
  apply sort_reverse_head in E. destruct E as [Hin _].
  now apply allFiles_match, file_re_shape in Hin.
Qed.

(** C9. For every file name the scanner resolves with, the match of the
    date-time expression against the name is not null: it is the token
    that follows the fixed prefix, so taking its element 0 does not throw. *)
Theorem C9_stamp_match_never_null (body : string) (file : RemoteFileRef) :
  on_listing_end body = Return file ->
  exists stamp tail,
    search stamp_re (filename file) = Some stamp /\
    filename file = "MRMS_ReflectivityAtLowestAltitude_" ++ stamp ++ tail /\
    lang stamp_re stamp.
Proof.
  intros H. destruct (@resolved_name_shape body file H) as (stamp & tail & E & L).
  exists stamp, tail. split; [|split; assumption].
  rewrite E. now apply search_stamp_in_file.
Qed.

Lemma C9_stamp_match_never_null_witness :
  exists stamp tail,
    search stamp_re Examples.newer = Some stamp /\
    Examples.newer = "MRMS_ReflectivityAtLowestAltitude_" ++ stamp ++ tail /\
    lang stamp_re stamp.
Proof.
  exact (@C9_stamp_match_never_null Examples.page
           {| filename := Examples.newer; isCompressed := true |}
           ltac:(vm_compute; reflexivity)).
Defined.

End ScannerFacts.

(** ** Rounding to a fixed number of decimals *)

Module NumFacts.
Import Num.
Local Open Scope Q_scope.

Lemma pow10_pos (d : nat) : (0 < pow10 d)%Z.
Proof. unfold pow10. apply Z.pow_pos_nonneg; lia. Qed.

Lemma scale_pos (d : nat) : 0 < inject_Z (pow10 d).
Proof.
  replace 0 with (inject_Z 0) by reflexivity.
  rewrite <- Zlt_Qlt. apply pow10_pos.
Qed.

Lemma Qltb_lt (x y : Q) : Qltb x y = true <-> x < y.
Proof.
  unfold Qltb. rewrite negb_true_iff. split.
  - intros H. apply Qnot_le_lt. intros Hle.
    apply Qle_bool_iff in Hle. congruence.
  - intros H. destruct (Qle_bool y x) eqn:E; [|reflexivity].
    apply Qle_bool_iff in E. exfalso. apply (Qlt_not_le _ _ H E).
Qed.

Lemma Qle_bool_false (x y : Q) : Qle_bool x y = false <-> y < x.
Proof.
  split.
  - intros H. apply Qnot_le_lt. intros Hle.
    apply Qle_bool_iff in Hle. congruence.
  - intros H. destruct (Qle_bool x y) eqn:E; [|reflexivity].
    apply Qle_bool_iff in E. exfalso. apply (Qlt_not_le _ _ H E).
Qed.

Lemma nearest_mono (d : nat) (x y : Q) :
  x <= y -> (nearest d x <= nearest d y)%Z.
Proof.
  intros H. unfold nearest. apply Qfloor_resp_le.
  pose proof (scale_pos d) as Hs.
  apply Qplus_le_compat; [|apply Qle_refl].
  apply Qmult_le_compat_r; [assumption | now apply Qlt_le_weak].
Qed.

Lemma nearest_nonneg (d : nat) (x : Q) : 0 <= x -> (0 <= nearest d x)%Z.
Proof.
  intros H. unfold nearest.
  replace 0%Z with (Qfloor 0) by reflexivity. apply Qfloor_resp_le.
  pose proof (scale_pos d) as Hs.
  assert (0 <= x * inject_Z (pow10 d)) by (apply Qmult_le_0_compat; lra).
  lra.
Qed.

Lemma over_scale_mono (d : nat) (a b : Z) :
  (a <= b)%Z -> inject_Z a / inject_Z (pow10 d) <= inject_Z b / inject_Z (pow10 d).
Proof.
  intros H. pose proof (scale_pos d) as Hs. unfold Qdiv.
  apply Qmult_le_compat_r.
  - now rewrite <- Zle_Qle.
  - apply Qlt_le_weak. now apply Qinv_lt_0_compat.
Qed.

Lemma over_scale_nonneg (d : nat) (a : Z) :
  (0 <= a)%Z -> 0 <= inject_Z a / inject_Z (pow10 d).
Proof.
  intros H. pose proof (over_scale_mono d H) as M.
  assert (inject_Z 0 / inject_Z (pow10 d) == 0) as Z0
      by (unfold Qdiv; apply Qmult_0_l).
  rewrite Z0 in M. exact M.
Qed.

(** Rounding preserves order. *)
Lemma fixed_mono (d : nat) (x y : Q) : x <= y -> fixed d x <= fixed d y.
Proof.
  intros H. unfold fixed.
  destruct (Qle_bool 0 x) eqn:Ex; destruct (Qle_bool 0 y) eqn:Ey.
  - apply over_scale_mono. now apply nearest_mono.
  - apply Qle_bool_iff in Ex. apply Qle_bool_false in Ey. lra.
  - apply Qle_bool_false in Ex. apply Qle_bool_iff in Ey.
    assert (0 <= inject_Z (nearest d (- x)) / inject_Z (pow10 d)) as H1.
    { apply over_scale_nonneg. apply nearest_nonneg. lra. }
    assert (0 <= inject_Z (nearest d y) / inject_Z (pow10 d)) as H2.
    { apply over_scale_nonneg. now apply nearest_nonneg. }
    lra.
  - apply Qopp_le_compat. apply over_scale_mono. apply nearest_mono. lra.
Qed.

(** The bounds used below are decimals that rounding leaves alone. *)
Ltac by_evaluation := vm_compute; reflexivity.

Lemma fixed_4_20 : fixed 4 20 == 20.
Proof. by_evaluation. Qed.
Lemma fixed_4_55 : fixed 4 55 == 55.
Proof. by_evaluation. Qed.
Lemma fixed_4_m130 : fixed 4 (-130) == -130.
Proof. by_evaluation. Qed.
Lemma fixed_4_m60 : fixed 4 (-60) == -60.
Proof. by_evaluation. Qed.
Lemma fixed_4_25 : fixed 4 25 == 25.
Proof. by_evaluation. Qed.
Lemma fixed_4_50 : fixed 4 50 == 50.
Proof. by_evaluation. Qed.
Lemma fixed_4_m125 : fixed 4 (-125) == -125.
Proof. by_evaluation. Qed.
Lemma fixed_4_m70 : fixed 4 (-70) == -70.
Proof. by_evaluation. Qed.
Lemma fixed_1_5 : fixed 1 5 == 5.
Proof. by_evaluation. Qed.
Lemma fixed_1_25 : fixed 1 25 == 25.
Proof. by_evaluation. Qed.
Lemma fixed_1_75 : fixed 1 75 == 75.
Proof. by_evaluation. Qed.
Lemma fixed_1_80 : fixed 1 80 == 80.
Proof. by_evaluation. Qed.

(** A bound that is itself a decimal of [d] places survives rounding. *)
Lemma fixed_between (d : nat) (a b x : Q) :
  fixed d a == a -> fixed d b == b -> a <= x <= b -> a <= fixed d x <= b.
Proof.
  intros Ha Hb [H1 H2]. split.
  - rewrite <- Ha. now apply fixed_mono.
  - rewrite <- Hb. now apply fixed_mono.
Qed.

Lemma scale_cancel (d : nat) (z : Z) :
  inject_Z z / inject_Z (pow10 d) * inject_Z (pow10 d) == inject_Z z.
Proof.
  pose proof (scale_pos d) as Hs. field. intros E. rewrite E in Hs.
  discriminate Hs.
Qed.

Lemma nearest_close (d : nat) (x : Q) :
  inject_Z (nearest d x) - (1 # 2) <= x * inject_Z (pow10 d) /\
  x * inject_Z (pow10 d) < inject_Z (nearest d x) + (1 # 2).
Proof.
  unfold nearest.
  pose proof (Qfloor_le (x * inject_Z (pow10 d) + (1 # 2))) as H1.
  pose proof (Qlt_floor (x * inject_Z (pow10 d) + (1 # 2))) as H2.
  rewrite inject_Z_plus in H2. change (inject_Z 1) with 1 in H2.
  split; lra.
Qed.

(** In exact arithmetic rounding to [d] decimals moves a number by at most
    half a unit of the last place. *)
Lemma fixed_error (d : nat) (x : Q) :
  Qabs (fixed d x - x) * inject_Z (pow10 d) <= 1 # 2.
Proof.
  pose proof (scale_pos d) as Hs.
  assert (Qabs (fixed d x - x) * inject_Z (pow10 d)
          == Qabs ((fixed d x - x) * inject_Z (pow10 d))) as E.
  { rewrite Qabs_Qmult, (Qabs_pos (inject_Z (pow10 d))); [reflexivity | lra]. }
  rewrite E. apply Qabs_Qle_condition. unfold fixed.
  destruct (Qle_bool 0 x) eqn:Ex.
  - pose proof (nearest_close d x) as [H1 H2].
    pose proof (scale_cancel d (nearest d x)) as C.
    split; ring_simplify; lra.
  - pose proof (nearest_close d (- x)) as [H1 H2].
    pose proof (scale_cancel d (nearest d (- x))) as C.
    split; ring_simplify; lra.
Qed.

(** The looser bounds the statements below use, one unit of the last
    place: they leave room for the error of double arithmetic before the
    rounding. *)
Lemma fixed_1_close (x : Q) : Qabs (fixed 1 x - x) <= 1 # 10.
Proof.
  pose proof (fixed_error 1 x) as H.
  change (inject_Z (pow10 1)) with 10 in H.
  pose proof (Qabs_nonneg (fixed 1 x - x)) as H0.
  generalize dependent (Qabs (fixed 1 x - x)). intros. lra.
Qed.

Lemma fixed_4_close (x : Q) : Qabs (fixed 4 x - x) <= 1 # 10000.
Proof.
  pose proof (fixed_error 4 x) as H.
  change (inject_Z (pow10 4)) with 10000 in H.
  pose proof (Qabs_nonneg (fixed 4 x - x)) as H0.
  generalize dependent (Qabs (fixed 4 x - x)). intros. lra.
Qed.

Lemma Qmax_bounds (x y : Q) : x <= Qmax x y /\ y <= Qmax x y.
Proof.
  unfold Qmax. destruct (Qle_bool x y) eqn:E.
  - apply Qle_bool_iff in E. lra.
  - apply Qle_bool_false in E. lra.
Qed.

Lemma Qmin_bounds (x y : Q) : Qmin x y <= x /\ Qmin x y <= y.
Proof.
  unfold Qmin. destruct (Qle_bool x y) eqn:E.
  - apply Qle_bool_iff in E. lra.
  - apply Qle_bool_false in E. lra.
Qed.

(** [Math.max(lo, Math.min(hi, x))] lies between its bounds. *)
Lemma clamp_range (lo hi x : Q) :
  lo <= hi -> lo <= Qmax lo (Qmin hi x) <= hi.
Proof.
  intros H. unfold Qmax. destruct (Qle_bool lo (Qmin hi x)) eqn:E.
  - apply Qle_bool_iff in E. pose proof (Qmin_bounds hi x). lra.
  - lra.
Qed.

End NumFacts.

(** ** The projector *)

Module ProjectorFacts.
Import Num Projector NumFacts Statements.
Local Open Scope Q_scope.

(** A loop preserves whatever its body preserves at the indices it can
    reach. *)
Lemma for_step_ind (A : Type) (P : A -> Prop) (I : Z -> Prop)
    (limit step : Z) (body : Z -> A -> A) :
  (forall k, I k -> I (k + step)%Z) ->
  (forall k a, I k -> (k < limit)%Z -> P a -> P (body k a)) ->
  forall fuel i acc, I i -> P acc -> P (for_step fuel i limit step body acc).
Proof.
  intros Hstep Hbody. induction fuel as [|fuel IH]; intros i acc Hi Hacc.
  - exact Hacc.
  - simpl. destruct (Z.ltb_spec i limit); [|exact Hacc].
    apply IH; auto.
Qed.

(** The loops stop by their own test: fuel beyond the distance to the
    limit is never used. *)
Lemma for_step_fuel (A : Type) (limit step : Z) (body : Z -> A -> A) :
  (1 <= step)%Z ->
  forall fuel i acc, (limit - i <= Z.of_nat fuel)%Z ->
  for_step (S fuel) i limit step body acc
  = for_step fuel i limit step body acc.
Proof.
  intros Hs. induction fuel as [|fuel IH]; intros i acc H.
  - simpl. destruct (Z.ltb_spec i limit); [lia | reflexivity].
  - change (for_step (S (S fuel)) i limit step body acc)
      with (if (i <? limit)%Z
            then for_step (S fuel) (i + step)%Z limit step body (body i acc)
            else acc).
    change (for_step (S fuel) i limit step body acc)
      with (if (i <? limit)%Z
            then for_step fuel (i + step)%Z limit step body (body i acc)
            else acc).
    destruct (i <? limit)%Z; [|reflexivity]. apply IH. lia.
Qed.

Lemma for_step_enough (A : Type) (limit : Z) (body : Z -> A -> A)
    (extra : nat) (acc : A) :
  for_step (Z.to_nat limit + extra) 0 limit sampleRate body acc
  = for_step (Z.to_nat limit) 0 limit sampleRate body acc.
Proof.
  induction extra as [|extra IH]; [now rewrite Nat.add_0_r|].
  rewrite Nat.add_succ_r, for_step_fuel; [exact IH | unfold sampleRate; lia | lia].
Qed.

Lemma on_stride_0 : on_stride 0.
Proof. split; [lia | reflexivity]. Qed.

Lemma on_stride_next (k : Z) : on_stride k -> on_stride (k + sampleRate).
Proof.
  unfold on_stride, sampleRate. intros [H0 Hm]. split; [lia|].
  rewrite Z.add_mod, Hm by lia. reflexivity.
Qed.

Lemma visit_cell_ok (message : Message) (j i : Z) (points : list Sample) :
  on_stride j -> (j < or_default (header_nj message) 3500)%Z ->
  on_stride i -> (i < or_default (header_ni message) 7000)%Z ->
  Forall (emitted_ok message) points ->
  Forall (emitted_ok message)
    (visit_cell (or_default (header_ni message) 7000)
                (or_default (header_nj message) 3500)
                (data message) j i points).
Proof.
  intros Hj Hjn Hi Hin Hp. unfold visit_cell.
  set (ni := or_default (header_ni message) 7000) in *.
  set (nj := or_default (header_nj message) 3500) in *.
  destruct (j * ni + i <? Z.of_nat (List.length (data message)))%Z;
    [|exact Hp].
  destruct (nth_error (data message) (Z.to_nat (j * ni + i)))
    as [[v| | |]|] eqn:E; try exact Hp.
  destruct (Qltb 5 v && Qltb v 80) eqn:F; [|exact Hp].
  apply andb_true_iff in F. destruct F as [F1 F2].
  apply Qltb_lt in F1. apply Qltb_lt in F2.
  apply Forall_app. split; [exact Hp|].
  constructor; [|constructor]. split.
  - exists j, i, v. cbn [lat lon value]. fold ni nj. repeat split; auto;
      try apply Hj; try apply Hi.
  - cbn [value].
    apply fixed_between; [exact fixed_1_5 | exact fixed_1_80 | lra].
Qed.

(** C4 (as amended). Every sample the projector emits comes from a visited
    cell whose value [v] satisfies [5 < v < 80] strictly; the value of the
    sample is [v] rounded to one decimal, which lies in the closed
    interval from 5 to 80. *)
Theorem C4_live_values (message : Message) :
  Forall (fun s => from_cell message s /\ 5 <= value s <= 80)
         (project message).
Proof.
  change (Forall (emitted_ok message) (project message)). unfold project.
  apply for_step_ind with (I := on_stride);
    [exact on_stride_next | | exact on_stride_0 | constructor].
  intros j points Hj Hjn Hp.
  apply for_step_ind with (I := on_stride);
    [exact on_stride_next | | exact on_stride_0 | exact Hp].
  intros i pts Hi Hin Hpts. now apply visit_cell_ok.
Qed.

(** A cell at 5.04 passes the filter and is emitted with the value 5.0,
    so the strict bounds do not hold of the samples. *)
Lemma C4_rounded_value_reaches_bound :
  ~ Forall (fun s => 5 < value s /\ value s < 80)
           (project Examples.faint_grid).
Proof.
  intros H. remember (project Examples.faint_grid) as l eqn:E.
  vm_compute in E. subst l.
  inversion H as [|s l [H5 _] _]. subst.
  vm_compute in H5. discriminate H5.
Qed.

Example project_even_grid :
  List.length (project Examples.even_grid) = 4%nat.
Proof. vm_compute. reflexivity. Qed.

(** A grid all of whose values are outside the range yields no sample. *)
Example project_saturated_grid : project Examples.saturated_grid = [].
Proof. vm_compute. reflexivity. Qed.

End ProjectorFacts.

(** ** The fallback generator *)

Module FallbackFacts.
Import Num Js Fallback NumFacts Statements.
Local Open Scope Q_scope.

Lemma advance_0 (p : Process) : advance 0 p = p.
Proof. destruct p; reflexivity. Qed.

Lemma advance_advance (a b : nat) (p : Process) :
  advance a (advance b p) = advance (b + a) p.
Proof. unfold advance; simpl. f_equal. lia. Qed.

(** A counted loop whose body draws [c] numbers and pushes one sample. *)
Lemma for_count_run (c : nat) (f : Z -> nat -> Sample)
    (body : Z -> list Sample -> JS (list Sample)) :
  (forall i acc p,
      body i acc p = (Return (acc ++ [f i (draws p)]), advance c p)) ->
  forall n i acc p,
    for_count n i body acc p
    = (Return (acc ++ map (fun k => f (i + Z.of_nat k)%Z (c * k + draws p)%nat)
                          (seq 0 n)),
       advance (c * n) p).
Proof.
  intros Hbody. induction n as [|n IH]; intros i acc p.
  - simpl. unfold ret. now rewrite app_nil_r, Nat.mul_0_r, advance_0.
  - cbn [for_count]. unfold bind at 1. rewrite Hbody, IH.
    rewrite advance_advance, <- app_assoc. f_equal; [|f_equal; lia].
    f_equal. f_equal. cbn [seq map app].
    rewrite Z.add_0_r, Nat.mul_0_r. f_equal.
    rewrite <- seq_shift, map_map. apply map_ext. intros k.
    f_equal; [lia | cbn [draws advance]; lia].
Qed.

Lemma storm_point_run (rt : Runtime) (storm : Storm) (i : Z)
    (points : list Sample) (p : Process) :
  storm_point rt storm i points p
  = (Return (points ++ [storm_sample rt storm i (random_seq rt (draws p))
                                     (random_seq rt (S (draws p)))]),
     advance 2 p).
Proof. reflexivity. Qed.

Lemma background_point_run (rt : Runtime) (i : Z) (points : list Sample)
    (p : Process) :
  background_point rt i points p
  = (Return (points ++ [background_sample (random_seq rt (draws p))
                                          (random_seq rt (S (draws p)))
                                          (random_seq rt (S (S (draws p))))]),
     advance 3 p).
Proof. reflexivity. Qed.

Lemma one_storm_run (rt : Runtime) (storm : Storm) (points : list Sample)
    (p : Process) :
  for_count 80 0 (storm_point rt storm) points p
  = (Return (points ++ storm_points_from rt (draws p) storm), advance 160 p).
Proof.
  rewrite (for_count_run (c:=2)
             (fun i d => storm_sample rt storm i (random_seq rt d)
                                      (random_seq rt (S d)))
             (storm_point rt storm) (storm_point_run rt storm)).
  reflexivity.
Qed.

Lemma forEach_storm_run (rt : Runtime) (l : list Storm) :
  forall points p,
    forEach l (fun storm points => for_count 80 0 (storm_point rt storm) points)
            points p
    = (Return (points ++ List.concat (storms_from rt (draws p) l)),
       advance (160 * List.length l) p).
Proof.
  induction l as [|storm l IH]; intros points p.
  - simpl. unfold ret. now rewrite app_nil_r, advance_0.
  - cbn [forEach]. unfold bind at 1. rewrite one_storm_run, IH.
    rewrite advance_advance, <- app_assoc. f_equal.
    cbn [List.length]. f_equal. lia.
Qed.

(** The generator in closed form: the five storms of 80 points, then the
    150 background points; 1250 draws in all. *)
Lemma generate_run (rt : Runtime) (p : Process) :
  generateFallbackData rt p
  = (Return (List.concat (storms_from rt (draws p) stormCenters)
             ++ background_points_from rt (800 + draws p)),
     advance 1250 (logged CallFallback p)).
Proof.
  unfold generateFallbackData, storm_loop.
  unfold bind at 1. change (record_call CallFallback p)
    with (Return tt, logged CallFallback p).
  unfold bind at 1. rewrite forEach_storm_run.
  unfold bind at 1.
  rewrite (for_count_run (c:=3)
             (fun (_ : Z) d => background_sample (random_seq rt d)
                                 (random_seq rt (S d))
                                 (random_seq rt (S (S d))))
             (background_point rt) (background_point_run rt)).
  unfold ret. rewrite advance_advance. reflexivity.
Qed.

(** Every storm disc lies inside the bounding box. *)
Lemma storm_margins (storm : Storm) :
  In storm stormCenters ->
  0 < radius storm /\
  20 <= storm_lat storm - radius storm /\
  storm_lat storm + radius storm <= 55 /\
  -130 <= storm_lon storm - radius storm /\
  storm_lon storm + radius storm <= -60.
Proof.
  unfold stormCenters. intros H.
  repeat (destruct H as [<-|H]; [cbn; repeat split; lra|]).
  destruct H.
Qed.

Lemma scaled_within (d R c : Q) :
  0 <= d -> d <= R -> -1 <= c <= 1 -> - R <= d * c <= R.
Proof.
  intros H0 HR [Hc1 Hc2].
  assert (0 <= d * (1 - c)) by (apply Qmult_le_0_compat; lra).
  assert (0 <= d * (1 + c)) by (apply Qmult_le_0_compat; lra).
  lra.
Qed.

Lemma distance_range (r R : Q) :
  0 <= r -> r < 1 -> 0 < R -> 0 <= r * R /\ r * R < R.
Proof.
  intros H0 H1 HR. split.
  - apply Qmult_le_0_compat; lra.
  - assert (0 < (1 - r) * R) by (apply Qmult_lt_0_compat; lra). lra.
Qed.

(** One storm point: where it lies and what its value is. *)
Lemma storm_sample_ok (rt : Runtime) (storm : Storm) (i : Z) (n : nat) :
  unit_draws rt -> 0 < radius storm ->
  storm_point_ok rt storm i
    (storm_sample rt storm i (random_seq rt n) (random_seq rt (S n))).
Proof.
  intros Hu HR. destruct (Hu n) as [H1 H1']. destruct (Hu (S n)) as [H2 H2'].
  destruct (distance_range H1 H1' HR) as [Hd Hd'].
  exists n. cbv zeta.
  split; [split; assumption|]. split; [split; lra|].
  split; [apply clamp_range; lra|].
  repeat split; reflexivity.
Qed.

Lemma storm_sample_in_box (rt : Runtime) (storm : Storm) (i : Z) (r1 r2 : Q) :
  trig_bounded rt -> In storm stormCenters ->
  0 <= r1 /\ r1 < 1 -> 0 <= r2 /\ r2 < 1 ->
  in_box (storm_sample rt storm i r1 r2) /\
  5 <= value (storm_sample rt storm i r1 r2) <= 75.
Proof.
  intros Ht Hin [H1 H1'] [H2 H2'].
  destruct (storm_margins Hin) as (HR & Ha & Hb & Hc & Hd).
  destruct (distance_range H1 H1' HR) as [Hd0 Hd1].
  destruct (Ht (angle_of i)) as [Hcos Hsin].
  assert (r1 * radius storm <= radius storm) as Hle by lra.
  pose proof (scaled_within Hd0 Hle Hcos) as Hx.
  pose proof (scaled_within Hd0 Hle Hsin) as Hy.
  unfold in_box, storm_sample, Projector.minLat, Projector.maxLat,
    Projector.minLon, Projector.maxLon. cbn [lat lon value].
  repeat split.
  - apply (@fixed_between _ _ _ _ fixed_4_20 fixed_4_55). lra.
  - apply (@fixed_between _ _ _ _ fixed_4_20 fixed_4_55). lra.
  - apply (@fixed_between _ _ _ _ fixed_4_m130 fixed_4_m60). lra.
  - apply (@fixed_between _ _ _ _ fixed_4_m130 fixed_4_m60). lra.
  - apply (@fixed_between _ _ _ _ fixed_1_5 fixed_1_75). apply clamp_range. lra.
  - apply (@fixed_between _ _ _ _ fixed_1_5 fixed_1_75). apply clamp_range. lra.
Qed.

Lemma background_sample_bounds (r1 r2 r3 : Q) :
  0 <= r1 /\ r1 < 1 -> 0 <= r2 /\ r2 < 1 -> 0 <= r3 /\ r3 < 1 ->
  25 <= lat (background_sample r1 r2 r3) <= 50 /\
  -125 <= lon (background_sample r1 r2 r3) <= -70 /\
  5 <= value (background_sample r1 r2 r3) <= 25.
Proof.
  intros H1 H2 H3. unfold background_sample. cbn [lat lon value].
  repeat split.
  - apply (@fixed_between _ _ _ _ fixed_4_25 fixed_4_50). lra.
  - apply (@fixed_between _ _ _ _ fixed_4_25 fixed_4_50). lra.
  - apply (@fixed_between _ _ _ _ fixed_4_m125 fixed_4_m70). lra.
  - apply (@fixed_between _ _ _ _ fixed_4_m125 fixed_4_m70). lra.
  - apply (@fixed_between _ _ _ _ fixed_1_5 fixed_1_25). lra.
  - apply (@fixed_between _ _ _ _ fixed_1_5 fixed_1_25). lra.
Qed.

Lemma background_sample_ok (rt : Runtime) (n : nat) :
  unit_draws rt ->
  background_point_ok rt
    (background_sample (random_seq rt n) (random_seq rt (S n))
                       (random_seq rt (S (S n)))).
Proof.
  intros Hu. split.
  - exists n. repeat split.
  - apply background_sample_bounds; apply Hu.
Qed.

Lemma background_in_box (rt : Runtime) (s : Sample) :
  background_point_ok rt s -> in_box s /\ 5 <= value s <= 25.
Proof.
  intros (_ & Hlat & Hlon & Hv).
  unfold in_box, Projector.minLat, Projector.maxLat, Projector.minLon,
    Projector.maxLon. repeat split; lra.
Qed.

Lemma storms_from_length (rt : Runtime) (l : list Storm) :
  forall d0, List.length (List.concat (storms_from rt d0 l))
             = (80 * List.length l)%nat.
Proof.
  induction l as [|storm l IH]; intros d0; [reflexivity|].
  cbn [storms_from List.concat]. rewrite length_app, IH.
  unfold storm_points_from. rewrite length_map, length_seq.
  cbn [List.length]. lia.
Qed.

Lemma storms_from_chunks (rt : Runtime) (l : list Storm) :
  unit_draws rt -> Forall (fun storm => 0 < radius storm) l ->
  forall d0, Forall2 (storm_chunk_ok rt) l (storms_from rt d0 l).
Proof.
  intros Hu. induction 1 as [|storm l HR Hl IH]; intros d0;
    cbn [storms_from]; constructor; [|apply IH].
  unfold storm_chunk_ok, storm_points_from. split.
  - now rewrite length_map, length_seq.
  - intros k Hk. eexists. split.
    + apply map_nth_error. rewrite nth_error_seq.
      destruct (Nat.ltb_spec k 80); [reflexivity | lia].
    + cbn [Nat.add]. now apply storm_sample_ok.
Qed.

Lemma storms_from_in_box (rt : Runtime) (l : list Storm) :
  unit_draws rt -> trig_bounded rt -> incl l stormCenters ->
  forall d0, Forall (fun s => in_box s /\ 5 <= value s <= 75)
                    (List.concat (storms_from rt d0 l)).
Proof.
  intros Hu Ht. induction l as [|storm l IH]; intros Hin d0;
    cbn [storms_from List.concat]; [constructor|].
  apply Forall_app. split.
  - unfold storm_points_from. apply Forall_map, Forall_forall.
    intros k _. apply storm_sample_in_box; auto. apply Hin. now left.
  - apply IH. intros x Hx. apply Hin. now right.
Qed.

Lemma background_points_ok (rt : Runtime) (d0 : nat) :
  unit_draws rt ->
  Forall (background_point_ok rt) (background_points_from rt d0).
Proof.
  intros Hu. unfold background_points_from. apply Forall_map, Forall_forall.
  intros k _. now apply background_sample_ok.
Qed.

(** C6. Whatever the random source draws, the generator returns 550
    samples: 400 storm points and then 150 background points, all inside
    the bounding box, with values in [5, 75] for the storm points and in
    [5, 25] for the background points. *)
Theorem C6_fallback_shape (rt : Runtime) (p : Process) :
  unit_draws rt -> trig_bounded rt ->
  exists storm_points background_points,
    fst (generateFallbackData rt p)
    = Return (storm_points ++ background_points) /\
    List.length storm_points = 400%nat /\
    List.length background_points = 150%nat /\
    List.length (storm_points ++ background_points) = 550%nat /\
    Forall (fun s => in_box s /\ 5 <= value s <= 75) storm_points /\
    Forall (fun s => in_box s /\ 5 <= value s <= 25) background_points.
Proof.
  intros Hu Ht. rewrite generate_run. cbn [fst].
  exists (List.concat (storms_from rt (draws p) stormCenters)),
         (background_points_from rt (800 + draws p)).
  assert (List.length (background_points_from rt (800 + draws p)) = 150%nat)
    as Hb by (unfold background_points_from; now rewrite length_map, length_seq).
  split; [reflexivity|]. split; [now rewrite storms_from_length|].
  split; [exact Hb|].
  split; [rewrite length_app, storms_from_length, Hb; reflexivity|].
  split.
  - apply storms_from_in_box; auto. apply incl_refl.
  - eapply Forall_impl; [|now apply background_points_ok].
    apply background_in_box.
Qed.

Lemma steady_unit_draws : unit_draws Examples.steady.
Proof. intros n. cbn. split; [discriminate | reflexivity]. Defined.

Lemma steady_trig_bounded : trig_bounded Examples.steady.
Proof. intros x. cbn. repeat split; discriminate. Defined.

Lemma C6_fallback_shape_witness :
  exists storm_points background_points,
    fst (generateFallbackData Examples.steady startup)
    = Return (storm_points ++ background_points) /\
    List.length storm_points = 400%nat /\
    List.length background_points = 150%nat /\
    List.length (storm_points ++ background_points) = 550%nat /\
    Forall (fun s => in_box s /\ 5 <= value s <= 75) storm_points /\
    Forall (fun s => in_box s /\ 5 <= value s <= 25) background_points.
Proof.
  exact (C6_fallback_shape startup steady_unit_draws steady_trig_bounded).
Defined.

(** What was computed exactly is within one unit of the last place of
    what is emitted. *)
Lemma storm_point_close_of_ok (rt : Runtime) (storm : Storm) (i : Z)
    (s : Sample) :
  storm_point_ok rt storm i s -> Closeness.storm_point_close rt storm i s.
Proof.
  intros (n & Hd & Hn & Hr & Elat & Elon & Ev). exists n. cbv zeta in *.
  split; [exact Hd|]. split; [exact Hn|]. split; [exact Hr|].
  rewrite Elat, Elon, Ev.
  split; [apply fixed_4_close|]. split; [apply fixed_4_close|].
  split; [apply fixed_1_close|].
  apply (@fixed_between _ _ _ _ fixed_1_5 fixed_1_75). exact Hr.
Qed.

Lemma storm_chunk_close_of_ok (rt : Runtime) (storm : Storm)
    (chunk : list Sample) :
  storm_chunk_ok rt storm chunk -> Closeness.storm_chunk_close rt storm chunk.
Proof.
  intros [Hlen Hk]. split; [exact Hlen|].
  intros k Hlt. destruct (Hk k Hlt) as (s & Es & Hs).
  exists s. split; [exact Es|]. now apply storm_point_close_of_ok.
Qed.

Lemma storms_from_close (rt : Runtime) (p : Process) :
  unit_draws rt ->
  Forall2 (Closeness.storm_chunk_close rt) stormCenters
          (storms_from rt (draws p) stormCenters).
Proof.
  intros Hu.
  assert (Forall2 (storm_chunk_ok rt) stormCenters
                  (storms_from rt (draws p) stormCenters)) as H.
  { apply storms_from_chunks; [assumption|].
    apply Forall_forall. intros storm Hin. now apply storm_margins. }
  induction H; constructor; [now apply storm_chunk_close_of_ok | assumption].
Qed.

(** C7 (as amended). Each storm center contributes 80 points, and the 150
    background points follow them. Point [i] of a storm lies at the fixed
    angle [2 * PI * i / 80], not at a drawn one, and at a distance drawn
    below the radius of the center: its emitted coordinates agree with that
    position to the fourth decimal. Its emitted value lies in [5, 75] and
    agrees, to the one decimal emitted, with the peak intensity scaled by
    [1 - distance / radius], plus a noise in [-7.5, 7.5), clamped to
    [5, 75]. *)
Theorem C7_storm_points (rt : Runtime) (p : Process) :
  unit_draws rt ->
  exists chunks background_points,
    fst (generateFallbackData rt p)
    = Return (List.concat chunks ++ background_points) /\
    List.length background_points = 150%nat /\
    Forall2 (Closeness.storm_chunk_close rt) stormCenters chunks.
Proof.
  intros Hu. rewrite generate_run. cbn [fst].
  exists (storms_from rt (draws p) stormCenters),
         (background_points_from rt (800 + draws p)).
  split; [reflexivity|]. split.
  - unfold background_points_from. now rewrite length_map, length_seq.
  - now apply storms_from_close.
Qed.

Lemma C7_storm_points_witness :
  exists chunks background_points,
    fst (generateFallbackData Examples.steady startup)
    = Return (List.concat chunks ++ background_points) /\
    List.length background_points = 150%nat /\
    Forall2 (Closeness.storm_chunk_close Examples.steady) stormCenters chunks.
Proof. exact (C7_storm_points startup steady_unit_draws). Defined.

(** The angle of a storm point is not drawn. Under a source that always
    draws one half, a drawn angle would be [2 * PI / 2] for every point;
    the first point of a storm lies at angle 0 instead, and the second at a
    different angle again. *)
Lemma C7_angle_is_not_drawn :
  angle_of 0 == 0 /\
  ~ (exists n, angle_of 0 == spec_angle (random_seq Examples.steady n)) /\
  ~ angle_of 1 == angle_of 0.
Proof.
  split; [by_evaluation|]. split.
  - intros [n H]. vm_compute in H. discriminate H.
  - intros H. vm_compute in H. discriminate H.
Qed.

(** C8 (as amended). The 150 background points follow the 400 storm
    points; each has its latitude in [25, 50], its longitude in
    [-125, -70] and its value in [5, 25], every coordinate being an affine
    image of one draw, rounded. *)
Theorem C8_background_points (rt : Runtime) (p : Process) :
  unit_draws rt ->
  exists storm_points background_points,
    fst (generateFallbackData rt p)
    = Return (storm_points ++ background_points) /\
    List.length storm_points = 400%nat /\
    List.length background_points = 150%nat /\
    Forall (background_point_ok rt) background_points.
Proof.
  intros Hu. rewrite generate_run. cbn [fst].
  exists (List.concat (storms_from rt (draws p) stormCenters)),
         (background_points_from rt (800 + draws p)).
  split; [reflexivity|]. split; [now rewrite storms_from_length|].
  split; [unfold background_points_from; now rewrite length_map, length_seq|].
  now apply background_points_ok.
Qed.

Lemma C8_background_points_witness :
  exists storm_points background_points,
    fst (generateFallbackData Examples.steady startup)
    = Return (storm_points ++ background_points) /\
    List.length storm_points = 400%nat /\
    List.length background_points = 150%nat /\
    Forall (background_point_ok Examples.steady) background_points.
Proof. exact (C8_background_points startup steady_unit_draws). Defined.

(** No draw puts a background point in the outer ring of the bounding
    box: south of 24 or north of 51, west of -126 or east of -69. *)
Lemma C8_background_misses_outer_ring :
  ~ (exists r1 r2 r3 : Q,
       (0 <= r1 /\ r1 < 1) /\ (0 <= r2 /\ r2 < 1) /\ (0 <= r3 /\ r3 < 1) /\
       (lat (background_sample r1 r2 r3) <= 24 \/
        51 <= lat (background_sample r1 r2 r3) \/
        lon (background_sample r1 r2 r3) <= -126 \/
        -69 <= lon (background_sample r1 r2 r3))).
Proof.
  intros (r1 & r2 & r3 & H1 & H2 & H3 & H).
  destruct (background_sample_bounds H1 H2 H3) as (Hlat & Hlon & _).
  lra.
Qed.

End FallbackFacts.

(** ** The route handlers *)

Module ServerFacts.
Import Text Js Server Statements.
Local Open Scope string_scope.

(** C3. When a snapshot is cached and fewer than 120000 ms have passed
    since it was fetched, the radar handler answers with that very
    snapshot and leaves the process as it was: the cache variables keep
    their values, no collaborator is called, no random number is drawn. *)
Theorem C3_cache_hit (rt : Runtime) (up : Upstream) (p : Process)
    (snapshot : Snapshot) :
  cachedData p = Some snapshot ->
  (Date_now up - lastFetchTime p < 120000)%Z ->
  radar_latest rt up p = (Return (Json200 snapshot), p).
Proof.
  intros Hc Ht. unfold radar_latest, try_catch, bind, read, ret.
  rewrite Hc. unfold CACHE_DURATION.
  destruct (Z.ltb_spec (Date_now up - lastFetchTime p) 120000); [|lia].
  reflexivity.
Qed.

(** C10. The health handler leaves the process as it was. It reports
    [cached] as the presence of a snapshot, and [cacheAge] as the whole
    seconds elapsed since the fetch time when a snapshot is present, and
    as null otherwise. *)
Theorem C10_health_reads_only (up : Upstream) (p : Process) :
  exists body,
    health up p = (Return body, p) /\
    status body = "ok" /\
    (cached body = true <-> cachedData p <> None) /\
    match cachedData p with
    | Some _ =>
        exists age, cacheAge body = Some age /\
          (1000 * age <= Date_now up - lastFetchTime p < 1000 * age + 1000)%Z /\
          age = ((Date_now up - lastFetchTime p) / 1000)%Z
    | None => cacheAge body = None
    end.
Proof.
  eexists. split; [reflexivity|]. cbn [status cached cacheAge].
  split; [reflexivity|].
  destruct (cachedData p) as [snapshot|].
  - split; [split; [discriminate | reflexivity]|].
    eexists. split; [reflexivity|]. split; [|reflexivity].
    pose proof (Z.div_mod (Date_now up - lastFetchTime p) 1000) as D.
    pose proof (Z.mod_pos_bound (Date_now up - lastFetchTime p) 1000) as B.
    lia.
  - split; [|reflexivity]. split; [discriminate | congruence].
Qed.

Lemma fallback_points_length (rt : Runtime) (d0 : nat) :
  List.length (fallback_points rt d0) = 550%nat.
Proof.
  unfold fallback_points, background_points_from.
  rewrite length_app, FallbackFacts.storms_from_length, length_map, length_seq.
  reflexivity.
Qed.

(** The refresh when the inner [try] block throws: the generator runs and
    its array is stored, with its length as [count]. *)
Lemma refresh_on_throw (rt : Runtime) (up : Upstream) (now : Z)
    (p p1 : Process) (e : string) :
  live up p = (Throw e, p1) ->
  refresh rt up now p
  = (Return (Json200 (generated_snapshot rt up (draws p1))),
     stored (generated_snapshot rt up (draws p1)) now
            (advance 1250 (logged CallFallback p1))).
Proof.
  intros H. unfold refresh. unfold bind at 1. unfold try_catch. rewrite H.
  unfold fallback. unfold bind at 1. rewrite FallbackFacts.generate_run.
  unfold ret at 1. cbv beta iota. unfold length_of.
  change (List.concat (storms_from rt (draws p1) Fallback.stormCenters)
          ++ background_points_from rt (800 + draws p1))%list
    with (fallback_points rt (draws p1)).
  rewrite fallback_points_length. reflexivity.
Qed.

(** The refresh when the inner [try] block completes. *)
Lemma refresh_on_return (rt : Runtime) (up : Upstream) (now : Z)
    (p p1 : Process) (stamp : string) (settled : outcome (list Sample)) :
  live up p = (Return (Promise settled, stamp, LIVE), p1) ->
  refresh rt up now p
  = (Return (Json200 (live_snapshot stamp settled)),
     stored (live_snapshot stamp settled) now p1).
Proof.
  intros H. unfold refresh. unfold bind at 1. unfold try_catch. rewrite H.
  reflexivity.
Qed.

(** With a stale cache the handler is its refresh. *)
Lemma radar_latest_stale (rt : Runtime) (up : Upstream) (p : Process) :
  stale up p ->
  radar_latest rt up p
  = try_catch (refresh rt up (Date_now up))
      (fun error => ret (Json500 "Failed to process radar data" error)) p.
Proof.
  intros H. unfold radar_latest, try_catch. unfold bind at 1. unfold read at 1.
  unfold bind at 1. unfold read at 1.
  destruct H as [H|H].
  - rewrite H. reflexivity.
  - destruct (cachedData p); [|reflexivity].
    destruct (Z.ltb_spec (Date_now up - lastFetchTime p) CACHE_DURATION);
      [lia | reflexivity].
Qed.

(** The four ways the pipeline can fail. *)
Lemma live_listing_error (up : Upstream) (p : Process) (e : string) :
  get_listing up = Throw e ->
  live up p = (Throw e, logged CallListing p).
Proof.
  intros H. unfold live, fetchLatestMRMSFile, bind, record_call, await.
  rewrite H. reflexivity.
Qed.

Lemma live_no_files (up : Upstream) (p : Process) (body e : string) :
  get_listing up = Return body -> Scanner.on_listing_end body = Throw e ->
  live up p = (Throw e, logged CallListing p).
Proof.
  intros H1 H2. unfold live, fetchLatestMRMSFile, bind, record_call, await.
  rewrite H1. cbn. rewrite H2. reflexivity.
Qed.

Lemma live_download_error (up : Upstream) (p : Process) (body e : string)
    (file : Scanner.RemoteFileRef) :
  get_listing up = Return body -> Scanner.on_listing_end body = Return file ->
  get_file up (Scanner.filename file) = Throw e ->
  live up p
  = (Throw e, logged (CallDownload (Scanner.filename file))
                     (logged CallListing p)).
Proof.
  intros H1 H2 H3.
  unfold live, fetchLatestMRMSFile, downloadMRMSFile, bind, record_call, await.
  rewrite H1. cbn. rewrite H2. cbn. rewrite H3. reflexivity.
Qed.

Lemma live_gunzip_error (up : Upstream) (p : Process) (body e : string)
    (file : Scanner.RemoteFileRef) (raw : Buffer) :
  get_listing up = Return body -> Scanner.on_listing_end body = Return file ->
  get_file up (Scanner.filename file) = Return raw ->
  Scanner.isCompressed file = true -> zlib_gunzip up raw = Throw e ->
  live up p
  = (Throw e, logged CallGunzip
                (logged (CallDownload (Scanner.filename file))
                        (logged CallListing p))).
Proof.
  intros H1 H2 H3 H4 H5.
  unfold live, fetchLatestMRMSFile, downloadMRMSFile, bind, record_call, await.
  rewrite H1. cbn. rewrite H2. cbn. rewrite H3. cbn. rewrite H4. cbn.
  rewrite H5. reflexivity.
Qed.

(** Once the buffer is there the inner [try] block completes, whatever the
    decoder does: its outcome only settles the promise. *)
Lemma live_after_download (up : Upstream) (p : Process) (body : string)
    (file : Scanner.RemoteFileRef) (raw buffer : Buffer) :
  get_listing up = Return body -> Scanner.on_listing_end body = Return file ->
  get_file up (Scanner.filename file) = Return raw ->
  (if Scanner.isCompressed file then zlib_gunzip up raw else Return raw)
  = Return buffer ->
  exists stamp p1,
    search Scanner.stamp_re (Scanner.filename file) = Some stamp /\
    live up p
    = (Return (Promise (Projector.parse_decoded (grib2_parseBuffer up buffer)),
               stamp, LIVE), p1) /\
    calls p1
    = (calls p ++ CallListing :: CallDownload (Scanner.filename file)
         :: (if Scanner.isCompressed file then [CallGunzip; CallDecoder]
             else [CallDecoder]))%list /\
    draws p1 = draws p.
Proof.
  intros H1 H2 H3 H4.
  destruct (@ScannerFacts.resolved_name_shape body file H2)
    as (stamp & tail & E & L).
  pose proof (@ScannerFacts.search_stamp_in_file stamp tail L) as Hs.
  rewrite <- E in Hs. clear E L tail.
  exists stamp.
  unfold live, fetchLatestMRMSFile, downloadMRMSFile, parseGRIB2Buffer,
    unawaited, bind, record_call, await.
  rewrite H1. cbn. rewrite H2. cbn. rewrite H3. cbn.
  destruct (Scanner.isCompressed file); cbn.
  - rewrite H4. cbn. rewrite Hs. cbn.
    destruct (Projector.parse_decoded (grib2_parseBuffer up buffer));
      cbn; eexists; (split; [reflexivity|]); (split; [reflexivity|]);
      cbn; rewrite <- !app_assoc; split; reflexivity.
  - injection H4 as ->. rewrite Hs. cbn.
    destruct (Projector.parse_decoded (grib2_parseBuffer up buffer));
      cbn; eexists; (split; [reflexivity|]); (split; [reflexivity|]);
      cbn; rewrite <- !app_assoc; split; reflexivity.
Qed.

Lemma radar_latest_generated (rt : Runtime) (up : Upstream) (p p1 : Process)
    (e : string) :
  stale up p -> live up p = (Throw e, p1) ->
  radar_latest rt up p
  = (Return (Json200 (generated_snapshot rt up (draws p1))),
     stored (generated_snapshot rt up (draws p1)) (Date_now up)
            (advance 1250 (logged CallFallback p1))).
Proof.
  intros Hs H. rewrite (@radar_latest_stale rt up p Hs). unfold try_catch.
  now rewrite (@refresh_on_throw rt up (Date_now up) p p1 e H).
Qed.

Lemma radar_latest_live (rt : Runtime) (up : Upstream) (p p1 : Process)
    (stamp : string) (settled : outcome (list Sample)) :
  stale up p -> live up p = (Return (Promise settled, stamp, LIVE), p1) ->
  radar_latest rt up p
  = (Return (Json200 (live_snapshot stamp settled)),
     stored (live_snapshot stamp settled) (Date_now up) p1).
Proof.
  intros Hs H. rewrite (@radar_latest_stale rt up p Hs). unfold try_catch.
  now rewrite (@refresh_on_return rt up (Date_now up) p p1 stamp settled H).
Qed.

(** A failure of the listing, of the selection, of the download or of the
    decompression is answered with the generated snapshot of 550 samples. *)
Lemma acquisition_failure_falls_back (rt : Runtime) (up : Upstream)
    (p : Process) (e : string) :
  stale up p ->
  get_listing up = Throw e \/
  (exists body, get_listing up = Return body /\
     (Scanner.on_listing_end body = Throw e \/
      exists file, Scanner.on_listing_end body = Return file /\
        (get_file up (Scanner.filename file) = Throw e \/
         exists raw, get_file up (Scanner.filename file) = Return raw /\
           Scanner.isCompressed file = true /\
           zlib_gunzip up raw = Throw e))) ->
  exists d0 p',
    radar_latest rt up p = (Return (Json200 (generated_snapshot rt up d0)), p') /\
    d0 = draws p /\
    count (generated_snapshot rt up d0)
    = length_of (data (generated_snapshot rt up d0)) /\
    In CallFallback (calls p').
Proof.
  intros Hs H.
  assert (exists p1, live up p = (Throw e, p1) /\ draws p1 = draws p) as L.
  { destruct H as [H|(body & Hb & [H|(file & Hf & [H|(raw & Hr & Hc & H)])])].
    - eexists. split; [exact (@live_listing_error up p e H) | reflexivity].
    - eexists. split; [exact (@live_no_files up p body e Hb H) | reflexivity].
    - eexists. split;
        [exact (@live_download_error up p body e file Hb Hf H) | reflexivity].
    - eexists. split;
        [exact (@live_gunzip_error up p body e file raw Hb Hf Hr Hc H)
        | reflexivity]. }
  destruct L as (p1 & L & Hd).
  eexists. eexists. split; [exact (@radar_latest_generated rt up p p1 e Hs L)|].
  split; [exact Hd|]. split.
  - cbn [count data generated_snapshot length_of].
    now rewrite fallback_points_length.
  - cbn. apply in_or_app. right. now left.
Qed.

(** The handler never answers with the status 500. *)
Lemma radar_latest_never_500 (rt : Runtime) (up : Upstream) (p : Process) :
  exists snapshot p', radar_latest rt up p = (Return (Json200 snapshot), p').
Proof.
  unfold radar_latest, try_catch. unfold bind at 1. unfold read at 1.
  unfold bind at 1. unfold read at 1.
  assert (exists snapshot p',
             refresh rt up (Date_now up) p = (Return (Json200 snapshot), p'))
    as R.
  { unfold refresh. unfold bind at 1. unfold try_catch.
    destruct (live up p) as [[[[pts stamp] src]|e] p1].
    - eexists. eexists. reflexivity.
    - unfold fallback. unfold bind at 1.
      rewrite FallbackFacts.generate_run. eexists. eexists. reflexivity. }
  destruct R as (snapshot & p' & R).
  destruct (cachedData p) as [cached|].
  - destruct (Date_now up - lastFetchTime p <? CACHE_DURATION)%Z.
    + eexists. eexists. reflexivity.
    + rewrite R. eauto.
  - rewrite R. eauto.
Qed.

(** A failure of the decoder is not caught: the response is labelled live,
    its [data] is the rejected promise and its [count] is undefined. *)
Lemma decode_failure_reaches_client (rt : Runtime) (up : Upstream)
    (p : Process) (body e : string) (file : Scanner.RemoteFileRef)
    (raw buffer : Buffer) :
  stale up p ->
  get_listing up = Return body -> Scanner.on_listing_end body = Return file ->
  get_file up (Scanner.filename file) = Return raw ->
  (if Scanner.isCompressed file then zlib_gunzip up raw else Return raw)
  = Return buffer ->
  grib2_parseBuffer up buffer = Throw e ->
  exists stamp p',
    radar_latest rt up p
    = (Return (Json200 (live_snapshot stamp
                 (Throw ("Failed to parse GRIB2 data: " ++ e)))), p') /\
    ~ In CallFallback (skipn (List.length (calls p)) (calls p')).
Proof.
  intros Hs H1 H2 H3 H4 H5.
  destruct (@live_after_download up p body file raw buffer H1 H2 H3 H4)
    as (stamp & p1 & _ & L & Hc & _).
  rewrite H5 in L. cbn [Projector.parse_decoded] in L.
  exists stamp. eexists. split; [exact (@radar_latest_live rt up p p1 _ _ Hs L)|].
  cbn [calls stored]. rewrite Hc, skipn_app, skipn_all, Nat.sub_diag.
  cbn [skipn app]. destruct (Scanner.isCompressed file); cbn;
    intuition discriminate.
Qed.

(** On the live path [count] is undefined, whatever the number of samples
    the projector produced. *)
Lemma live_count_undefined (rt : Runtime) (up : Upstream) (p : Process)
    (body : string) (file : Scanner.RemoteFileRef) (raw buffer : Buffer) :
  stale up p ->
  get_listing up = Return body -> Scanner.on_listing_end body = Return file ->
  get_file up (Scanner.filename file) = Return raw ->
  (if Scanner.isCompressed file then zlib_gunzip up raw else Return raw)
  = Return buffer ->
  exists snapshot p',
    radar_latest rt up p = (Return (Json200 snapshot), p') /\
    source snapshot = LIVE /\
    data snapshot
    = Promise (Projector.parse_decoded (grib2_parseBuffer up buffer)) /\
    count snapshot = None.
Proof.
  intros Hs H1 H2 H3 H4.
  destruct (@live_after_download up p body file raw buffer H1 H2 H3 H4)
    as (stamp & p1 & _ & L & _).
  eexists. eexists. split; [exact (@radar_latest_live rt up p p1 _ _ Hs L)|].
  repeat split.
Qed.

(** C1. A request during which every stage succeeds and the projector
    yields four samples: the snapshot sent has its [data] holding the
    promise of those samples and its [count] undefined, not 4. *)
Theorem C1_live_count_is_undefined :
  fst (radar_latest Examples.steady Examples.live_world startup)
  = Return (Json200
      {| timestamp := "20240101-000200";
         data := Promise (Return (Projector.project Examples.even_grid));
         count := None;
         source := "MRMS RALA (Live)" |}) /\
  List.length (Projector.project Examples.even_grid) = 4%nat.
Proof. split; vm_compute; reflexivity. Qed.

(** C2. A request during which the decoder rejects the buffer: the
    response is the live-labelled snapshot around the rejected promise,
    and the generator was not called. *)
Theorem C2_decode_failure_is_not_caught :
  radar_latest Examples.steady Examples.undecodable_world startup
  = (Return (Json200
       (live_snapshot "20240101-000200"
          (Throw "Failed to parse GRIB2 data: Invalid GRIB2 section"))),
     {| cachedData :=
          Some (live_snapshot "20240101-000200"
                  (Throw "Failed to parse GRIB2 data: Invalid GRIB2 section"));
        lastFetchTime := 1704067320000;
        draws := 0;
        calls := [CallListing; CallDownload Examples.newer; CallGunzip;
                  CallDecoder] |}).
Proof. vm_compute. reflexivity. Qed.

Lemma C3_cache_hit_witness :
  radar_latest Examples.steady Examples.live_world_later Examples.warm
  = (Return (Json200
       (live_snapshot "20240101-000200"
          (Return (Projector.project Examples.even_grid)))),
     Examples.warm).
Proof.
  apply C3_cache_hit; vm_compute; reflexivity.
Defined.

(** The scenario of the specification: no file in the listing. *)
Example empty_listing_scenario :
  exists samples,
    fst (radar_latest Examples.steady Examples.empty_listing_world startup)
    = Return (Json200
        {| timestamp := "20240101-000200";
           data := Arr samples;
           count := Some 550%nat;
           source := "Generated (MRMS unavailable)" |}) /\
    List.length samples = 550%nat.
Proof. eexists. split; vm_compute; reflexivity. Qed.

(** The second of two requests one second apart calls no collaborator. *)
Example second_request_scenario :
  calls (snd (radar_latest Examples.steady Examples.live_world_later
                Examples.warm))
  = calls Examples.warm.
Proof. vm_compute. reflexivity. Qed.

End ServerFacts.

(* ===================================================================== *)
(** * Further properties of the code                                      *)
(* ===================================================================== *)

Unset Implicit Arguments.

(** ** Rounding: how far it moves a number *)

Module NumMore.
Import Num NumFacts.
Local Open Scope Q_scope.

(** X1. The two roundings the program applies, to four decimals for a
    coordinate and to one decimal for a value, move a number by at most one
    unit of the decimal kept. *)
Theorem rounding_within_one_unit (x : Q) :
  Qabs (fixed 4 x - x) <= 1 # 10000 /\ Qabs (fixed 1 x - x) <= 1 # 10.
Proof.
  pose proof (fixed_error 4 x) as H4. pose proof (fixed_error 1 x) as H1.
  change (inject_Z (pow10 4)) with 10000 in H4.
  change (inject_Z (pow10 1)) with 10 in H1.
  pose proof (Qabs_nonneg (fixed 4 x - x)) as P4.
  pose proof (Qabs_nonneg (fixed 1 x - x)) as P1.
  revert H4 H1 P4 P1.
  generalize (Qabs (fixed 4 x - x)) (Qabs (fixed 1 x - x)).
  intros a b H4 H1 P4 P1. split; lra.
Qed.

Lemma nearest_of_integer (d : nat) (z : Z) :
  nearest d (inject_Z z / inject_Z (pow10 d)) = z.
Proof.
  unfold nearest. rewrite scale_cancel.
  pose proof (Qfloor_le (inject_Z z + (1 # 2))) as H1.
  pose proof (Qlt_floor (inject_Z z + (1 # 2))) as H2.
  rewrite inject_Z_plus in H2. change (inject_Z 1) with 1 in H2.
  set (n := Qfloor (inject_Z z + (1 # 2))) in *. clearbody n.
  assert (inject_Z n < inject_Z (z + 1)) as A.
  { rewrite inject_Z_plus. change (inject_Z 1) with 1.
    generalize dependent (inject_Z n). generalize (inject_Z z).
    intros. lra. }
  assert (inject_Z (z - 1) < inject_Z n) as B.
  { unfold Z.sub. rewrite inject_Z_plus, inject_Z_opp.
    change (inject_Z 1) with 1.
    generalize dependent (inject_Z n). generalize (inject_Z z).
    intros. lra. }
  rewrite <- Zlt_Qlt in A, B. lia.
Qed.

Lemma nearest_comp (d : nat) (a b : Q) : a == b -> nearest d a = nearest d b.
Proof. intros H. unfold nearest. now rewrite H. Qed.

Lemma fixed_comp (d : nat) (a b : Q) : a == b -> fixed d a == fixed d b.
Proof.
  intros H. unfold fixed.
  assert (Qle_bool 0 a = Qle_bool 0 b) as -> by now rewrite H.
  assert (- a == - b) as N by now rewrite H.
  rewrite (nearest_comp d _ _ H), (nearest_comp d _ _ N). reflexivity.
Qed.

(** A decimal of [d] places is left as it is. *)
Lemma fixed_on_grid (d : nat) (z : Z) :
  fixed d (inject_Z z / inject_Z (pow10 d)) == inject_Z z / inject_Z (pow10 d).
Proof.
  pose proof (scale_pos d) as Hs. unfold fixed.
  destruct (Qle_bool 0 (inject_Z z / inject_Z (pow10 d))) eqn:E.
  - now rewrite nearest_of_integer.
  - assert (- (inject_Z z / inject_Z (pow10 d))
            == inject_Z (- z) / inject_Z (pow10 d)) as N
        by (rewrite inject_Z_opp; field; lra).
    rewrite (nearest_comp d _ _ N), nearest_of_integer, inject_Z_opp. field. lra.
Qed.

(** X2. Rounding twice is rounding once: what [toFixed] printed is
    printed again unchanged. *)
Theorem fixed_idempotent (d : nat) (x : Q) :
  fixed d (fixed d x) == fixed d x.
Proof.
  pose proof (scale_pos d) as Hs.
  assert (exists z, fixed d x == inject_Z z / inject_Z (pow10 d)) as [z E].
  { unfold fixed. destruct (Qle_bool 0 x).
    - eexists. reflexivity.
    - exists (- nearest d (- x))%Z. rewrite inject_Z_opp. field. lra. }
  rewrite (fixed_comp d _ _ E), fixed_on_grid. symmetry. exact E.
Qed.

End NumMore.

(** ** The projector: what it visits, how much it returns *)

Module ProjectorMore.
Import Num Projector NumFacts Statements ProjectorFacts.
Local Open Scope Q_scope.

(** A loop keeps what every iteration keeps. *)
Lemma for_step_keeps (A : Type) (P : A -> Prop) (limit step : Z)
    (body : Z -> A -> A) :
  (forall k a, P a -> P (body k a)) ->
  forall fuel i acc, P acc -> P (for_step fuel i limit step body acc).
Proof.
  intros H fuel i acc Hacc.
  apply (@for_step_ind A P (fun _ => True) limit step body); auto.
Qed.

(** With fuel for the distance to the limit, a loop runs the iteration of
    every index of its stride below the limit. *)
Lemma for_step_reaches (A : Type) (P : A -> Prop) (limit step : Z)
    (body : Z -> A -> A) (target : Z) :
  (1 <= step)%Z ->
  (forall k a, P a -> P (body k a)) ->
  (forall a, P (body target a)) ->
  forall fuel i acc,
    (limit - i <= Z.of_nat fuel)%Z ->
    (i <= target < limit)%Z -> ((target - i) mod step = 0)%Z ->
    P (for_step fuel i limit step body acc).
Proof.
  intros Hs Hkeep Hhit. induction fuel as [|fuel IH]; intros i acc Hf Ht Hm.
  - simpl in Hf. lia.
  - cbn [for_step]. destruct (Z.ltb_spec i limit); [|lia].
    destruct (Z.eq_dec i target) as [->|Hne].
    + apply for_step_keeps; [exact Hkeep | apply Hhit].
    + assert (step <= target - i)%Z as Hstep.
      { apply Z.mod_divide in Hm; [|lia]. destruct Hm as [q Hq].
        assert (0 < q)%Z by nia. nia. }
      apply IH; [lia | lia |].
      replace (target - (i + step))%Z with (target - i + (-1) * step)%Z by lia.
      rewrite Z.mod_add by lia. exact Hm.
Qed.

Lemma on_stride_mod (k : Z) : on_stride k -> ((k - 0) mod sampleRate = 0)%Z.
Proof. intros [_ H]. now rewrite Z.sub_0_r. Qed.

Lemma visit_cell_keeps (ni nj : Z) (data : list jsnum) (j i : Z) (s : Sample)
    (points : list Sample) :
  In s points -> In s (visit_cell ni nj data j i points).
Proof.
  intros H. unfold visit_cell.
  destruct (j * ni + i <? Z.of_nat (List.length data))%Z; [|exact H].
  destruct (nth_error data (Z.to_nat (j * ni + i))) as [[v| | |]|];
    try exact H.
  destruct (Qltb 5 v && Qltb v 80); [|exact H].
  apply in_or_app. now left.
Qed.

(** In exact arithmetic the sample of a visited cell whose value lies
    strictly between 5 and 80 is in the result. *)
Lemma project_visits (message : Message) (j i : Z) (v : Q) :
  on_stride j -> (j < or_default (header_nj message) 3500)%Z ->
  on_stride i -> (i < or_default (header_ni message) 7000)%Z ->
  nth_error (data message)
            (Z.to_nat (j * or_default (header_ni message) 7000 + i))
  = Some (Fin v) ->
  5 < v -> v < 80 ->
  In {| lat := fixed 4 (minLat + inject_Z j *
                        ((maxLat - minLat)
                         / inject_Z (or_default (header_nj message) 3500)));
        lon := fixed 4 (minLon + inject_Z i *
                        ((maxLon - minLon)
                         / inject_Z (or_default (header_ni message) 7000)));
        value := fixed 1 v |}
     (project message).
Proof.
  intros Hj Hjn Hi Hin Hv H5 H80. unfold project.
  set (ni := or_default (header_ni message) 7000) in *.
  set (nj := or_default (header_nj message) 3500) in *.
  set (s := {| lat := _; lon := _; value := _ |}).
  assert (forall jj a,
            In s a ->
            In s (for_step (Z.to_nat ni) 0 ni sampleRate
                    (fun i0 points => visit_cell ni nj (data message) jj i0 points)
                    a)) as Keep.
  { intros jj a Ha. apply for_step_keeps; [|exact Ha].
    intros k b Hb. now apply visit_cell_keeps. }
  destruct Hj as [Hj0 Hjm]. destruct Hi as [Hi0 Him].
  apply (for_step_reaches _ (fun a => In s a)) with (target := j);
    [unfold sampleRate; lia | exact Keep | | lia | lia
    | now rewrite Z.sub_0_r].
  intros a.
  apply (for_step_reaches _ (fun a => In s a)) with (target := i);
    [unfold sampleRate; lia | | | lia | lia | now rewrite Z.sub_0_r].
  - intros k b Hb. now apply visit_cell_keeps.
  - intros b. unfold visit_cell.
    assert (Z.to_nat (j * ni + i) < List.length (data message))%nat as Hlen.
    { apply nth_error_Some. rewrite Hv. discriminate. }
    destruct (Z.ltb_spec (j * ni + i) (Z.of_nat (List.length (data message))));
      [|nia].
    rewrite Hv.
    assert (Qltb 5 v && Qltb v 80 = true) as ->.
    { apply andb_true_iff. split; now apply Qltb_lt. }
    apply in_or_app. right. now left.
Qed.

(** X3. Every visited cell whose value lies strictly between 5 and 80 has
    its sample in the result: the value rounded to one decimal, at the
    position of its row and column to the fourth decimal. *)
Theorem project_complete (message : Message) (j i : Z) (v : Q) :
  on_stride j -> (j < or_default (header_nj message) 3500)%Z ->
  on_stride i -> (i < or_default (header_ni message) 7000)%Z ->
  nth_error (data message)
            (Z.to_nat (j * or_default (header_ni message) 7000 + i))
  = Some (Fin v) ->
  5 < v -> v < 80 ->
  exists s,
    In s (project message) /\
    Closeness.sample_of_cell
      (or_default (header_ni message) 7000)
      (or_default (header_nj message) 3500)
      {| Closeness.row := j; Closeness.column := i; Closeness.reading := v |}
      s.
Proof.
  intros Hj Hjn Hi Hin Hv H5 H80.
  eexists. split.
  - exact (project_visits message j i v Hj Hjn Hi Hin Hv H5 H80).
  - unfold Closeness.sample_of_cell, Closeness.row_lat, Closeness.column_lon.
    cbn [lat lon value Closeness.row Closeness.column Closeness.reading].
    split; [reflexivity|]. split; apply fixed_4_close.
Qed.

Lemma project_complete_witness :
  exists s,
    In s (project Examples.even_grid) /\
    Closeness.sample_of_cell
      (or_default (header_ni Examples.even_grid) 7000)
      (or_default (header_nj Examples.even_grid) 3500)
      {| Closeness.row := 0; Closeness.column := 25; Closeness.reading := 10 |}
      s.
Proof.
  apply (project_complete Examples.even_grid 0 25 10).
  - split; [lia | reflexivity].
  - reflexivity.
  - split; [lia | reflexivity].
  - reflexivity.
  - reflexivity.
  - reflexivity.
  - reflexivity.
Defined.

(** X4. A grid with no cell value strictly between 5 and 80 (an empty grid
    among them) gives the empty list, not an error. *)
Theorem project_nothing_in_range (message : Message) :
  (forall v, In (Fin v) (data message) -> ~ (5 < v /\ v < 80)) ->
  project message = [].
Proof.
  intros H. unfold project.
  apply (for_step_keeps _ (fun a => a = [])); [|reflexivity].
  intros j a ->.
  apply (for_step_keeps _ (fun a => a = [])); [|reflexivity].
  intros i a ->. unfold visit_cell.
  destruct (_ <? _)%Z; [|reflexivity].
  destruct (nth_error _ _) as [[v| | |]|] eqn:E; try reflexivity.
  destruct (Qltb 5 v && Qltb v 80) eqn:F; [|reflexivity].
  apply andb_true_iff in F. destruct F as [F1 F2].
  apply Qltb_lt in F1. apply Qltb_lt in F2.
  exfalso. apply (H v); [|split; assumption].
  eapply nth_error_In. exact E.
Qed.

Lemma project_nothing_in_range_witness :
  project Examples.saturated_grid = [].
Proof.
  apply project_nothing_in_range.
  intros v Hin [_ H80]. apply repeat_spec in Hin. injection Hin as Hv.
  subst v. vm_compute in H80. discriminate H80.
Defined.

(** The number of strided indices below a limit. *)
Lemma stride_count_step (n : Z) :
  (0 < n)%Z ->
  ((Z.max n 0 + 24) / 25 = 1 + (Z.max (n - 25) 0 + 24) / 25)%Z.
Proof. intros H. Z.div_mod_to_equations. lia. Qed.

Lemma for_step_length (B : Type) (c : Z) (limit : Z)
    (body : Z -> list B -> list B) :
  (0 <= c)%Z ->
  (forall k a, Z.of_nat (List.length (body k a))
               <= Z.of_nat (List.length a) + c)%Z ->
  forall fuel i acc,
    (Z.of_nat (List.length (for_step fuel i limit sampleRate body acc))
     <= Z.of_nat (List.length acc)
        + c * ((Z.max (limit - i) 0 + 24) / 25))%Z.
Proof.
  intros Hc Hbody. induction fuel as [|fuel IH]; intros i acc.
  - simpl. assert (0 <= (Z.max (limit - i) 0 + 24) / 25)%Z
      by (apply Z.div_pos; lia). nia.
  - cbn [for_step]. destruct (Z.ltb_spec i limit).
    + specialize (IH (i + sampleRate)%Z (body i acc)).
      specialize (Hbody i acc).
      rewrite (stride_count_step (limit - i)) by lia.
      unfold sampleRate in *.
      replace (limit - (i + 25))%Z with (limit - i - 25)%Z in IH by lia.
      set (rest := ((Z.max (limit - i - 25) 0 + 24) / 25)%Z) in *.
      clearbody rest. nia.
    + assert (0 <= (Z.max (limit - i) 0 + 24) / 25)%Z
        by (apply Z.div_pos; lia). nia.
Qed.

Lemma visit_cell_length (ni nj : Z) (data : list jsnum) (j i : Z)
    (points : list Sample) :
  (Z.of_nat (List.length (visit_cell ni nj data j i points))
   <= Z.of_nat (List.length points) + 1)%Z.
Proof.
  unfold visit_cell.
  destruct (_ <? _)%Z; [|lia].
  destruct (nth_error _ _) as [[v| | |]|]; try lia.
  destruct (Qltb 5 v && Qltb v 80); [|lia].
  rewrite length_app. simpl. lia.
Qed.

(** X5. The result holds at most one sample per visited cell: the product
    of the numbers of strided rows and columns (140 * 280 = 39200 with
    the default dimensions). *)
Theorem project_length_bound (message : Message) :
  (Z.of_nat (List.length (project message))
   <= ((Z.max (or_default (header_nj message) 3500) 0 + 24) / 25)
      * ((Z.max (or_default (header_ni message) 7000) 0 + 24) / 25))%Z.
Proof.
  unfold project.
  set (ni := or_default (header_ni message) 7000).
  set (nj := or_default (header_nj message) 3500).
  set (cols := ((Z.max ni 0 + 24) / 25)%Z).
  assert (0 <= cols)%Z as Hcols by (apply Z.div_pos; lia).
  pose proof (@for_step_length Sample cols nj
                (fun j points =>
                   for_step (Z.to_nat ni) 0 ni sampleRate
                     (fun i points => visit_cell ni nj (data message) j i points)
                     points) Hcols) as Outer.
  assert (forall k a,
             (Z.of_nat (List.length
                (for_step (Z.to_nat ni) 0 ni sampleRate
                   (fun i points => visit_cell ni nj (data message) k i points)
                   a))
              <= Z.of_nat (List.length a) + cols)%Z) as Inner.
  { intros k a.
    pose proof (@for_step_length Sample 1 ni
                  (fun i points => visit_cell ni nj (data message) k i points)
                  ltac:(lia)
                  (fun i b => visit_cell_length ni nj (data message) k i b)
                  (Z.to_nat ni) 0%Z a) as H.
    rewrite Z.sub_0_r in H. fold cols in H. lia. }
  specialize (Outer Inner (Z.to_nat nj) 0%Z []).
  rewrite Z.sub_0_r in Outer. simpl List.length in Outer. lia.
Qed.

(** The offset of a row or column inside the box: [k] of [n] steps of
    [span / n] stay within the span. *)
Lemma offset_in_span (k n : Z) (span : Q) :
  (0 <= k < n)%Z -> 0 <= span ->
  0 <= inject_Z k * (span / inject_Z n) <= span.
Proof.
  intros [Hk Hn] Hspan.
  assert (0 <= inject_Z k) as Hk'
      by (change 0 with (inject_Z 0); now rewrite <- Zle_Qle).
  assert (inject_Z k < inject_Z n) as Hn' by (now rewrite <- Zlt_Qlt).
  assert (0 < inject_Z n) as Hpos by lra.
  assert (inject_Z k * (span / inject_Z n) * inject_Z n == span * inject_Z k)
    as E by (field; lra).
  assert (0 <= span * inject_Z k) as P1 by (apply Qmult_le_0_compat; lra).
  assert (0 <= span * (inject_Z n - inject_Z k)) as P2
      by (apply Qmult_le_0_compat; lra).
  split.
  - apply (Qmult_le_r _ _ (inject_Z n) Hpos). rewrite E. lra.
  - apply (Qmult_le_r _ _ (inject_Z n) Hpos). rewrite E. lra.
Qed.

Lemma offset_mono (k n : Z) (span : Q) :
  (0 <= k < n)%Z -> 0 <= span ->
  inject_Z k * (span / inject_Z n)
  <= inject_Z (k + sampleRate) * (span / inject_Z n).
Proof.
  intros [Hk Hn] Hspan.
  assert (0 < inject_Z n) as Hpos
      by (change 0 with (inject_Z 0); rewrite <- Zlt_Qlt; lia).
  assert (0 <= span / inject_Z n) as Hc.
  { unfold Qdiv. apply Qmult_le_0_compat; [assumption|].
    apply Qlt_le_weak. now apply Qinv_lt_0_compat. }
  apply Qmult_le_compat_r; [|exact Hc].
  rewrite <- Zle_Qle. unfold sampleRate. lia.
Qed.

(** X6. Every sample of the projector lies in the bounding box of the
    grid. *)
Theorem project_in_box (message : Message) :
  Forall in_box (project message).
Proof.
  unfold project.
  set (ni := or_default (header_ni message) 7000).
  set (nj := or_default (header_nj message) 3500).
  apply (@for_step_ind _ (Forall in_box) on_stride);
    [exact on_stride_next | | exact on_stride_0 | constructor].
  intros j points [Hj _] Hjn Hp.
  apply (@for_step_ind _ (Forall in_box) on_stride);
    [exact on_stride_next | | exact on_stride_0 | exact Hp].
  intros i pts [Hi _] Hin Hpts. unfold visit_cell.
  destruct (_ <? _)%Z; [|exact Hpts].
  destruct (nth_error _ _) as [[v| | |]|]; try exact Hpts.
  destruct (Qltb 5 v && Qltb v 80); [|exact Hpts].
  apply Forall_app. split; [exact Hpts|]. constructor; [|constructor].
  assert (0 <= maxLat - minLat) as S1 by (unfold maxLat, minLat; lra).
  assert (0 <= maxLon - minLon) as S2 by (unfold maxLon, minLon; lra).
  pose proof (@offset_in_span j nj _ (conj Hj Hjn) S1) as [A1 A2].
  pose proof (@offset_in_span i ni _ (conj Hi Hin) S2) as [B1 B2].
  unfold in_box. cbn [lat lon]. unfold maxLat, minLat, maxLon, minLon in *.
  split.
  - apply (@fixed_between _ _ _ _ fixed_4_20 fixed_4_55). lra.
  - apply (@fixed_between _ _ _ _ fixed_4_m130 fixed_4_m60). lra.
Qed.

(** With fuel for the distance to the limit, a loop of stride 25 from 0
    applies its body to the strided indices below the limit, in order. *)
Lemma for_step_from (A : Type) (limit : Z) (body : Z -> A -> A) :
  forall fuel i acc,
    (limit - i <= Z.of_nat fuel)%Z ->
    for_step fuel i limit sampleRate body acc
    = fold_left (fun a k => body k a)
        (map (fun k => (i + sampleRate * Z.of_nat k)%Z)
             (seq 0 (Z.to_nat ((Z.max (limit - i) 0 + 24) / 25))))
        acc.
Proof.
  induction fuel as [|fuel IH]; intros i acc Hf.
  - assert ((Z.max (limit - i) 0 + 24) / 25 = 0)%Z as ->
        by (Z.div_mod_to_equations; lia).
    reflexivity.
  - cbn [for_step]. destruct (Z.ltb_spec i limit).
    + rewrite (stride_count_step (limit - i)) by lia.
      assert (0 <= (Z.max (limit - i - 25) 0 + 24) / 25)%Z as Hpos
          by (apply Z.div_pos; lia).
      rewrite Z2Nat.inj_add by lia. change (Z.to_nat 1) with 1%nat.
      cbn [Nat.add seq map fold_left].
      rewrite Z.mul_0_r, Z.add_0_r.
      rewrite IH by (unfold sampleRate; lia).
      unfold sampleRate.
      replace (limit - (i + 25))%Z with (limit - i - 25)%Z by lia.
      rewrite <- seq_shift, map_map. f_equal.
      apply map_ext. intros k. lia.
    + assert ((Z.max (limit - i) 0 + 24) / 25 = 0)%Z as ->
          by (Z.div_mod_to_equations; lia).
      reflexivity.
Qed.

Lemma for_step_strided (A : Type) (limit : Z) (body : Z -> A -> A) (acc : A) :
  for_step (Z.to_nat limit) 0 limit sampleRate body acc
  = fold_left (fun a k => body k a) (Closeness.strided limit) acc.
Proof.
  rewrite for_step_from by lia. unfold Closeness.strided.
  rewrite Z.sub_0_r. reflexivity.
Qed.

Lemma visit_cell_sample (ni nj : Z) (data : list jsnum) (j i : Z)
    (points : list Sample) :
  exists new,
    visit_cell ni nj data j i points = (points ++ new)%list /\
    Forall2 (Closeness.sample_of_cell ni nj)
            (Closeness.passing_cell ni data j i) new.
Proof.
  unfold visit_cell, Closeness.passing_cell.
  destruct (_ <? _)%Z;
    [|exists []; split; [now rewrite app_nil_r | constructor]].
  destruct (nth_error _ _) as [[v| | |]|];
    try (exists []; split; [now rewrite app_nil_r | constructor]).
  destruct (Qltb 5 v && Qltb v 80);
    [|exists []; split; [now rewrite app_nil_r | constructor]].
  eexists. split; [reflexivity|]. constructor; [|constructor].
  unfold Closeness.sample_of_cell, Closeness.row_lat, Closeness.column_lon.
  cbn [lat lon value Closeness.row Closeness.column Closeness.reading].
  split; [reflexivity|]. split; apply fixed_4_close.
Qed.

(** A fold whose body appends the samples of some cells appends the
    samples of all of them, in order. *)
Lemma fold_appends (K : Type) (R : Closeness.Cell -> Sample -> Prop)
    (cells : K -> list Closeness.Cell)
    (body : K -> list Sample -> list Sample) :
  (forall k a, exists new,
      body k a = (a ++ new)%list /\ Forall2 R (cells k) new) ->
  forall l a, exists new,
    fold_left (fun a k => body k a) l a = (a ++ new)%list /\
    Forall2 R (flat_map cells l) new.
Proof.
  intros Hbody. induction l as [|k l IH]; intros a.
  - exists []. split; [now rewrite app_nil_r | constructor].
  - cbn [fold_left flat_map].
    destruct (Hbody k a) as (n1 & -> & H1).
    destruct (IH (a ++ n1)%list) as (n2 & -> & H2).
    exists (n1 ++ n2)%list. split; [now rewrite app_assoc|].
    now apply Forall2_app.
Qed.

(** X7. The samples come out in row-major order: one sample for each
    visited cell that passes the filter, the rows in ascending order and,
    within a row, the columns in ascending order. *)
Theorem project_row_major (message : Message) :
  Forall2 (Closeness.sample_of_cell (or_default (header_ni message) 7000)
                                    (or_default (header_nj message) 3500))
          (Closeness.passing_cells message) (project message).
Proof.
  unfold project, Closeness.passing_cells.
  set (ni := or_default (header_ni message) 7000).
  set (nj := or_default (header_nj message) 3500).
  rewrite for_step_strided.
  destruct (fold_appends Z (Closeness.sample_of_cell ni nj)
              (fun j => flat_map
                          (fun i => Closeness.passing_cell ni (data message) j i)
                          (Closeness.strided ni))
              (fun j points =>
                 for_step (Z.to_nat ni) 0 ni sampleRate
                   (fun i points => visit_cell ni nj (data message) j i points)
                   points))
    with (l := Closeness.strided nj) (a := @nil Sample) as (new & -> & H).
  - intros j a. rewrite for_step_strided.
    apply (fold_appends Z (Closeness.sample_of_cell ni nj)
             (fun i => Closeness.passing_cell ni (data message) j i)
             (fun i points => visit_cell ni nj (data message) j i points)).
    intros i b. apply visit_cell_sample.
  - exact H.
Qed.

End ProjectorMore.

(** ** The scanner: rejection, chronology, the two shapes of a name *)

Module ScannerMore.
Import Text Scanner TextFacts SortFacts ScannerFacts.
Local Open Scope string_scope.

Lemma allFiles_nonempty_resolves (body : string) :
  allFiles body <> [] -> exists file, on_listing_end body = Return file.
Proof.
  intros Hne. unfold on_listing_end.
  destruct (allFiles body) as [|x l] eqn:E; [congruence|].
  cbn [List.length Nat.eqb].
  destruct (rev (Array_sort (x :: l))) as [|latest t] eqn:R; [|eauto].
  exfalso. assert (In x (Array_sort (x :: l))) as Hin
      by (apply Array_sort_In; now left).
  apply in_rev in Hin. rewrite R in Hin. exact Hin.
Qed.

(** X8. The scanner rejects with [No MRMS files found] exactly the
    listings in which no file name of the pattern occurs. *)
Theorem scanner_rejects_iff_no_match (body : string) :
  on_listing_end body = Throw "No MRMS files found" <->
  ~ (exists pre f post, body = pre ++ f ++ post /\ lang file_re f).
Proof.
  split.
  - intros H (pre & f & post & -> & L).
    assert (allFiles (pre ++ f ++ post) <> []) as Hne
        by (rewrite allFiles_scan; now apply scan_complete).
    destruct (allFiles_nonempty_resolves _ Hne) as [file R]. congruence.
  - intros Hno. unfold on_listing_end.
    destruct (allFiles body) as [|x l] eqn:E; [reflexivity|].
    exfalso. apply Hno.
    assert (In x (scan file_re 0 body)) as Hin
        by (rewrite <- allFiles_scan, E; now left).
    destruct (@scan_substring file_re body 0%nat x Hin) as (pre & post & ->).
    exists pre, x, post. split; [reflexivity|]. now apply scan_sound in Hin.
Qed.

Lemma scanner_rejection_message (body e : string) :
  on_listing_end body = Throw e -> e = "No MRMS files found".
Proof.
  unfold on_listing_end.
  destruct (allFiles body) as [|x l] eqn:E; cbn [List.length Nat.eqb].
  - congruence.
  - intros H. exfalso.
    assert (allFiles body <> []) as Hne by (rewrite E; discriminate).
    destruct (allFiles_nonempty_resolves _ Hne) as [file R].
    unfold on_listing_end in R. rewrite E in R. cbn [List.length Nat.eqb] in R.
    congruence.
Qed.

Lemma str_le_same_prefix (p a b : string) :
  str_le (p ++ a) (p ++ b) -> str_le a b.
Proof.
  unfold str_le. induction p as [|c p IH]; simpl; [auto|].
  rewrite leb_cons_same. exact IH.
Qed.

Lemma str_le_same_length (a b x y : string) :
  length a = length b -> str_le (a ++ x) (b ++ y) -> str_le a b.
Proof.
  unfold str_le, String.leb. revert b.
  induction a as [|c a IH]; intros [|d b] Hl; simpl in *; try discriminate.
  - reflexivity.
  - destruct (Ascii.compare c d); auto.
Qed.

(** X9. The selected file is the newest one listed: its name occurs in
    the listing, and no file name of the pattern occurring anywhere in the
    listing carries a later date-time token. *)
Theorem scanner_selects_newest_stamp (body : string) (file : RemoteFileRef)
    (stamp tail pre g post gstamp gtail : string) :
  on_listing_end body = Return file ->
  filename file = "MRMS_ReflectivityAtLowestAltitude_" ++ stamp ++ tail ->
  lang stamp_re stamp ->
  body = pre ++ g ++ post ->
  lang file_re g ->
  g = "MRMS_ReflectivityAtLowestAltitude_" ++ gstamp ++ gtail ->
  lang stamp_re gstamp ->
  (exists pre' post', body = pre' ++ filename file ++ post') /\
  str_le gstamp stamp.
Proof.
  intros H E L Eb Lg Eg Ls. split; [exact (@latest_occurs body file H)|].
  pose proof (@occurrence_below_latest body pre g post file H Eb Lg) as Hmax.
  rewrite E, Eg in Hmax.
  apply str_le_same_prefix in Hmax.
  apply str_le_same_length in Hmax; [exact Hmax|].
  now rewrite (@stamp_length _ Ls), (@stamp_length _ L).
Qed.

Lemma scanner_selects_newest_stamp_witness :
  (exists pre' post', Examples.page = pre' ++ Examples.newer ++ post') /\
  str_le "20240101-000000" "20240101-000200".
Proof.
  apply (scanner_selects_newest_stamp Examples.page
           {| filename := Examples.newer; isCompressed := true |}
           "20240101-000200" ".grib2.gz"
           "<a href='" Examples.older
           ("'>a</a> <a href='" ++ Examples.newer ++ "'>b</a>")
           "20240101-000000" ".grib2").
  - vm_compute. reflexivity.
  - reflexivity.
  - apply (@match_here_sound stamp_re "20240101-000200" "20240101-000200").
    vm_compute. reflexivity.
  - reflexivity.
  - apply (@match_here_sound file_re Examples.older Examples.older).
    vm_compute. reflexivity.
  - reflexivity.
  - apply (@match_here_sound stamp_re "20240101-000000" "20240101-000000").
    vm_compute. reflexivity.
Defined.

End ScannerMore.

(** ** The two shapes of a file name; the time stamp of the fallback *)

Module StampMore.
Import Text Scanner TextFacts SortFacts ScannerFacts Server MoreStatements.
Local Open Scope string_scope.

Lemma file_re_two_shapes (w : string) :
  lang file_re w ->
  exists stamp,
    lang stamp_re stamp /\
    (w = "MRMS_ReflectivityAtLowestAltitude_" ++ stamp ++ ".grib2" \/
     w = "MRMS_ReflectivityAtLowestAltitude_" ++ stamp ++ ".grib2.gz").
Proof.
  intros (p & w1 & -> & -> & (d8 & w2 & -> & L8 &
          (dash & w3 & -> & -> & (d6 & tail & -> & L6 &
            (ext & opt & -> & -> & Hopt))))).
  exists (d8 ++ "-" ++ d6). split.
  - exists d8, ("-" ++ d6). split; [reflexivity|]. split; [assumption|].
    exists "-", d6. repeat split; assumption.
  - destruct Hopt as [Hopt | ->].
    + simpl in Hopt. subst opt. right. now rewrite !append_assoc.
    + left. now rewrite !append_assoc.
Qed.

(** X10. A resolved name is the prefix, a date-time token and [.grib2] or
    [.grib2.gz]; [isCompressed] tells which of the two. *)
Theorem scanner_name_shapes (body : string) (file : RemoteFileRef) :
  on_listing_end body = Return file ->
  exists stamp,
    lang stamp_re stamp /\
    ((filename file
      = "MRMS_ReflectivityAtLowestAltitude_" ++ stamp ++ ".grib2" /\
      isCompressed file = false) \/
     (filename file
      = "MRMS_ReflectivityAtLowestAltitude_" ++ stamp ++ ".grib2.gz" /\
      isCompressed file = true)).
Proof.
  intros H. apply on_listing_end_Return in H. destruct H as (t & R & Hc).
  apply sort_reverse_head in R. destruct R as [Hin _].
  apply allFiles_match, file_re_two_shapes in Hin.
  destruct Hin as (stamp & L & E). exists stamp. split; [exact L|].
  pose proof (@stamp_length _ L) as Hlen.
  rewrite Hc. destruct E as [E|E]; [left | right]; (split; [exact E|]);
    rewrite E; clear - Hlen;
    do 15 (destruct stamp as [|? stamp]; [discriminate Hlen|]);
    (destruct stamp; [|discriminate Hlen]); reflexivity.
Qed.

Lemma scanner_name_shapes_witness :
  exists stamp,
    lang stamp_re stamp /\
    ((Examples.newer
      = "MRMS_ReflectivityAtLowestAltitude_" ++ stamp ++ ".grib2" /\
      true = false) \/
     (Examples.newer
      = "MRMS_ReflectivityAtLowestAltitude_" ++ stamp ++ ".grib2.gz" /\
      true = true)).
Proof.
  exact (scanner_name_shapes Examples.page
           {| filename := Examples.newer; isCompressed := true |}
           ltac:(vm_compute; reflexivity)).
Defined.

Lemma digit_is_no_separator (c : ascii) :
  is_digit c = true ->
  mem_ascii c ["-"; ":"]%char = false /\
  Ascii.eqb c "." = false /\ Ascii.eqb c "T" = false.
Proof.
  destruct c as [[] [] [] [] [] [] [] []]; cbv; intros H;
    try discriminate H; repeat split.
Qed.

Lemma remove_all_digits (n : nat) :
  forall w rest, lang (Rep n Digit) w ->
  remove_all ["-"; ":"]%char (w ++ rest)
  = w ++ remove_all ["-"; ":"]%char rest.
Proof.
  induction n as [|n IH]; intros w rest L.
  - simpl in L. now subst.
  - apply lang_Rep_S in L. destruct L as (w1 & w2 & -> & (c & D & ->) & L2).
    cbn [append remove_all].
    destruct (digit_is_no_separator c D) as (-> & _ & _).
    now rewrite IH.
Qed.

Lemma before_digits (n : nat) :
  forall w rest, lang (Rep n Digit) w ->
  before "." (w ++ rest) = w ++ before "." rest.
Proof.
  induction n as [|n IH]; intros w rest L.
  - simpl in L. now subst.
  - apply lang_Rep_S in L. destruct L as (w1 & w2 & -> & (c & D & ->) & L2).
    cbn [append before].
    destruct (digit_is_no_separator c D) as (_ & -> & _).
    now rewrite IH.
Qed.

Lemma replace_first_digits (n : nat) :
  forall w rest, lang (Rep n Digit) w ->
  replace_first "T" "-" (w ++ rest) = w ++ replace_first "T" "-" rest.
Proof.
  induction n as [|n IH]; intros w rest L.
  - simpl in L. now subst.
  - apply lang_Rep_S in L. destruct L as (w1 & w2 & -> & (c & D & ->) & L2).
    cbn [append replace_first].
    destruct (digit_is_no_separator c D) as (_ & _ & ->).
    now rewrite IH.
Qed.

Lemma Rep_Digit_app (a b : nat) (u v : string) :
  lang (Rep a Digit) u -> lang (Rep b Digit) v ->
  lang (Rep (a + b) Digit) (u ++ v).
Proof.
  revert u. induction a as [|a IH]; intros u Lu Lv.
  - simpl in Lu. now subst.
  - apply lang_Rep_S in Lu. destruct Lu as (w1 & w2 & -> & L1 & L2).
    cbn [Nat.add]. apply lang_Rep_S. exists w1, (w2 ++ v).
    split; [apply append_assoc|]. split; [exact L1 | now apply IH].
Qed.

(** X11. The time stamp of a generated snapshot: from an ISO date-time it keeps
    the eight digits of the date, a hyphen and the six digits of the time,
    the format of the token of a file name. *)
Theorem compact_stamp_format (iso : string) :
  iso_shape iso ->
  exists y mo d h mi s,
    compact_stamp iso = (y ++ mo ++ d) ++ "-" ++ (h ++ mi ++ s) /\
    lang stamp_re (compact_stamp iso) /\
    search stamp_re (compact_stamp iso) = Some (compact_stamp iso).
Proof.
  intros (y & mo & d & h & mi & s & ms & -> & Ly & Lmo & Ld & Lh & Lmi & Ls & Lms).
  exists y, mo, d, h, mi, s.
  assert (compact_stamp
            (y ++ "-" ++ mo ++ "-" ++ d ++ "T" ++ h ++ ":" ++ mi ++ ":" ++ s
               ++ "." ++ ms ++ "Z")
          = (y ++ mo ++ d) ++ "-" ++ (h ++ mi ++ s)) as E.
  { unfold compact_stamp.
    rewrite (remove_all_digits 4 _ _ Ly). cbn [append remove_all mem_ascii
      existsb Ascii.eqb Bool.eqb orb].
    rewrite (remove_all_digits 2 _ _ Lmo). cbn [append remove_all mem_ascii
      existsb Ascii.eqb Bool.eqb orb].
    rewrite (remove_all_digits 2 _ _ Ld). cbn [append remove_all mem_ascii
      existsb Ascii.eqb Bool.eqb orb].
    rewrite (remove_all_digits 2 _ _ Lh). cbn [append remove_all mem_ascii
      existsb Ascii.eqb Bool.eqb orb].
    rewrite (remove_all_digits 2 _ _ Lmi). cbn [append remove_all mem_ascii
      existsb Ascii.eqb Bool.eqb orb].
    rewrite (remove_all_digits 2 _ _ Ls). cbn [append remove_all mem_ascii
      existsb Ascii.eqb Bool.eqb orb].
    rewrite (remove_all_digits 3 _ _ Lms). cbn [append remove_all mem_ascii
      existsb Ascii.eqb Bool.eqb orb].
    rewrite (before_digits 4 _ _ Ly), (before_digits 2 _ _ Lmo),
      (before_digits 2 _ _ Ld). cbn [append before Ascii.eqb Bool.eqb].
    rewrite (before_digits 2 _ _ Lh), (before_digits 2 _ _ Lmi),
      (before_digits 2 _ _ Ls). cbn [append before Ascii.eqb Bool.eqb].
    rewrite (replace_first_digits 4 _ _ Ly), (replace_first_digits 2 _ _ Lmo),
      (replace_first_digits 2 _ _ Ld).
    cbn [append replace_first Ascii.eqb Bool.eqb].
    now rewrite !append_nil_r, !append_assoc. }
  assert (lang stamp_re ((y ++ mo ++ d) ++ "-" ++ (h ++ mi ++ s))) as L.
  { exists (y ++ mo ++ d), ("-" ++ (h ++ mi ++ s)).
    split; [reflexivity|]. split.
    - apply (Rep_Digit_app 4 4); [exact Ly|]. now apply (Rep_Digit_app 2 2).
    - exists "-", (h ++ mi ++ s). split; [reflexivity|].
      split; [reflexivity|].
      apply (Rep_Digit_app 2 4); [exact Lh|]. now apply (Rep_Digit_app 2 2). }
  rewrite E. split; [reflexivity|]. split; [exact L|].
  destruct (match_here stamp_re ((y ++ mo ++ d) ++ "-" ++ h ++ mi ++ s))
    as [w|] eqn:M.
  - rewrite (@search_here _ _ _ M). f_equal.
    apply match_here_sound in M. destruct M as (Lw & rest & M).
    symmetry in M.
    rewrite <- (append_nil_r ((y ++ mo ++ d) ++ "-" ++ h ++ mi ++ s)) in M.
    apply append_same_length in M; [exact M|].
    now rewrite (@stamp_length _ L), (@stamp_length _ Lw).
  - exfalso. revert M.
    rewrite <- (append_nil_r ((y ++ mo ++ d) ++ "-" ++ h ++ mi ++ s)).
    now apply match_here_complete.
Qed.

Lemma compact_stamp_format_witness :
  exists y mo d h mi s,
    compact_stamp "2024-01-01T00:02:00.000Z"
    = (y ++ mo ++ d) ++ "-" ++ (h ++ mi ++ s) /\
    lang stamp_re (compact_stamp "2024-01-01T00:02:00.000Z") /\
    search stamp_re (compact_stamp "2024-01-01T00:02:00.000Z")
    = Some (compact_stamp "2024-01-01T00:02:00.000Z").
Proof.
  apply compact_stamp_format.
  exists "2024", "01", "01", "00", "02", "00", "000".
  split; [reflexivity|].
  repeat split;
    match goal with
    | |- lang ?r ?w =>
        apply (@match_here_sound r w w); vm_compute; reflexivity
    end.
Defined.

End StampMore.

(** ** The generator: its effects, and how near a storm its points lie *)

Module FallbackMore.
Import Num Js Fallback NumFacts Statements FallbackFacts.
Local Open Scope Q_scope.

(** X12. The generator never throws. It draws exactly 1250 random numbers,
    records one call and leaves the cache variables alone. *)
Theorem generator_effects (rt : Runtime) (p : Process) :
  exists points,
    fst (generateFallbackData rt p) = Return points /\
    draws (snd (generateFallbackData rt p)) = (1250 + draws p)%nat /\
    calls (snd (generateFallbackData rt p)) = (calls p ++ [CallFallback])%list /\
    cachedData (snd (generateFallbackData rt p)) = cachedData p /\
    lastFetchTime (snd (generateFallbackData rt p)) = lastFetchTime p.
Proof.
  rewrite generate_run. eexists. repeat split.
Qed.

Lemma storm_disc_on_grid (storm : Storm) :
  In storm stormCenters ->
  fixed 4 (storm_lat storm - radius storm) == storm_lat storm - radius storm /\
  fixed 4 (storm_lat storm + radius storm) == storm_lat storm + radius storm /\
  fixed 4 (storm_lon storm - radius storm) == storm_lon storm - radius storm /\
  fixed 4 (storm_lon storm + radius storm) == storm_lon storm + radius storm.
Proof.
  unfold stormCenters. intros H.
  repeat (destruct H as [<-|H]; [repeat split; vm_compute; reflexivity|]).
  destruct H.
Qed.

Lemma storm_sample_near (rt : Runtime) (storm : Storm) (i : Z) (r1 r2 : Q) :
  trig_bounded rt -> In storm stormCenters ->
  0 <= r1 /\ r1 < 1 ->
  (storm_lat storm - radius storm <= lat (storm_sample rt storm i r1 r2)
   <= storm_lat storm + radius storm) /\
  (storm_lon storm - radius storm <= lon (storm_sample rt storm i r1 r2)
   <= storm_lon storm + radius storm).
Proof.
  intros Ht Hin [H1 H1'].
  destruct (@storm_margins storm Hin) as (HR & _).
  destruct (@distance_range r1 (radius storm) H1 H1' HR) as [Hd0 Hd1].
  destruct (Ht (angle_of i)) as [Hcos Hsin].
  assert (r1 * radius storm <= radius storm) as Hle by lra.
  pose proof (@scaled_within _ _ _ Hd0 Hle Hcos) as Hx.
  pose proof (@scaled_within _ _ _ Hd0 Hle Hsin) as Hy.
  destruct (storm_disc_on_grid storm Hin) as (G1 & G2 & G3 & G4).
  unfold storm_sample. cbn [lat lon]. split.
  - apply (@fixed_between _ _ _ _ G1 G2). lra.
  - apply (@fixed_between _ _ _ _ G3 G4). lra.
Qed.

Lemma storms_from_near (rt : Runtime) (l : list Storm) :
  trig_bounded rt -> unit_draws rt -> incl l stormCenters ->
  forall d0,
    Forall2 (fun storm chunk =>
               Forall (fun s =>
                  (storm_lat storm - radius storm <= lat s
                   <= storm_lat storm + radius storm) /\
                  (storm_lon storm - radius storm <= lon s
                   <= storm_lon storm + radius storm)) chunk)
            l (storms_from rt d0 l).
Proof.
  intros Ht Hu. induction l as [|storm l IH]; intros Hin d0;
    cbn [storms_from]; constructor.
  - unfold storm_points_from. apply Forall_map, Forall_forall.
    intros k _. apply storm_sample_near; [exact Ht | apply Hin; now left|].
    apply Hu.
  - apply IH. intros x Hx. apply Hin. now right.
Qed.

Lemma Forall2_both (A B : Type) (P Q R : A -> B -> Prop) :
  (forall a b, P a b -> Q a b -> R a b) ->
  forall l l', Forall2 P l l' -> Forall2 Q l l' -> Forall2 R l l'.
Proof.
  intros H l l' HP. induction HP as [|a b l l' Hab _ IH]; intros HQ;
    inversion HQ; subst; constructor; auto.
Qed.

(** X13. Each of the five storms contributes 80 points, and every one of
    them lies within the radius of the storm from its center, in latitude
    and in longitude, to the fourth decimal. *)
Theorem storm_points_near_center (rt : Runtime) (p : Process) :
  unit_draws rt -> trig_bounded rt ->
  exists chunks background_points,
    fst (generateFallbackData rt p)
    = Return (List.concat chunks ++ background_points) /\
    List.length background_points = 150%nat /\
    Forall2 (fun storm chunk =>
               List.length chunk = 80%nat /\
               Forall (Closeness.near_storm storm) chunk)
            stormCenters chunks.
Proof.
  intros Hu Ht. rewrite generate_run. cbn [fst].
  exists (storms_from rt (draws p) stormCenters),
         (background_points_from rt (800 + draws p)).
  split; [reflexivity|]. split.
  - unfold background_points_from. now rewrite length_map, length_seq.
  - apply Forall2_both with (P := Closeness.storm_chunk_close rt)
                             (Q := fun storm chunk =>
               Forall (fun s =>
                  (storm_lat storm - radius storm <= lat s
                   <= storm_lat storm + radius storm) /\
                  (storm_lon storm - radius storm <= lon s
                   <= storm_lon storm + radius storm)) chunk).
    + intros storm chunk [Hlen _] Hn. split; [exact Hlen|].
      eapply Forall_impl; [|exact Hn]. cbv beta.
      intros s [[A1 A2] [B1 B2]]. unfold Closeness.near_storm.
      repeat split; lra.
    + exact (@storms_from_close rt p Hu).
    + apply storms_from_near; auto. apply incl_refl.
Qed.

Lemma storm_points_near_center_witness :
  exists chunks background_points,
    fst (generateFallbackData Examples.steady startup)
    = Return (List.concat chunks ++ background_points) /\
    List.length background_points = 150%nat /\
    Forall2 (fun storm chunk =>
               List.length chunk = 80%nat /\
               Forall (Closeness.near_storm storm) chunk)
            stormCenters chunks.
Proof.
  exact (storm_points_near_center Examples.steady startup
           steady_unit_draws steady_trig_bounded).
Defined.

End FallbackMore.

(** ** The handlers: what every request does *)

Module ServerMore.
Import Text Js Server Statements ServerFacts.
Local Open Scope string_scope.

(** What the inner [try] block does to the process, whatever the world
    answers: it lists exactly once, never calls the generator, never draws
    and never assigns the cache variables; when it completes, the points
    are a promise and the label is the live one. *)
Lemma live_frame (up : Upstream) (p : Process) :
  exists o p1 rest,
    live up p = (o, p1) /\
    calls p1 = (calls p ++ CallListing :: rest)%list /\
    ~ In CallListing rest /\ ~ In CallFallback rest /\
    draws p1 = draws p /\ cachedData p1 = cachedData p /\
    lastFetchTime p1 = lastFetchTime p /\
    match o with
    | Return (pts, _, src) => src = LIVE /\ exists settled, pts = Promise settled
    | Throw _ => True
    end.
Proof.
  unfold live, fetchLatestMRMSFile, downloadMRMSFile, parseGRIB2Buffer,
    unawaited, bind, record_call, await, ret, throw.
  cbn [calls draws cachedData lastFetchTime].
  destruct (get_listing up) as [body|e]; cbn;
    [|exists (Throw e); eexists; exists []; cbn; intuition discriminate].
  destruct (Scanner.on_listing_end body) as [file|e]; cbn;
    [|eexists; eexists; exists []; split; [reflexivity|];
      cbn; intuition discriminate].
  destruct (get_file up (Scanner.filename file)) as [raw|e]; cbn;
    [|eexists; eexists; exists [CallDownload (Scanner.filename file)];
      split; [reflexivity|]; cbn; rewrite <- !app_assoc; cbn;
      intuition discriminate].
  destruct (Scanner.isCompressed file); cbn.
  - destruct (zlib_gunzip up raw) as [buffer|e]; cbn;
      [|eexists; eexists;
        exists [CallDownload (Scanner.filename file); CallGunzip];
        split; [reflexivity|]; cbn; rewrite <- !app_assoc; cbn;
        intuition discriminate].
    destruct (Projector.parse_decoded (grib2_parseBuffer up buffer));
      destruct (search Scanner.stamp_re (Scanner.filename file)); cbn;
      eexists; eexists;
      exists [CallDownload (Scanner.filename file); CallGunzip; CallDecoder];
      (split; [reflexivity|]); cbn; rewrite <- !app_assoc; cbn;
      intuition (discriminate || eauto).
  - destruct (Projector.parse_decoded (grib2_parseBuffer up raw));
      destruct (search Scanner.stamp_re (Scanner.filename file)); cbn;
      eexists; eexists;
      exists [CallDownload (Scanner.filename file); CallDecoder];
      (split; [reflexivity|]); cbn; rewrite <- !app_assoc; cbn;
      intuition (discriminate || eauto).
Qed.

(** A refresh, in its two outcomes. *)
Lemma refresh_outcomes (rt : Runtime) (up : Upstream) (p : Process) :
  stale up p ->
  exists snapshot p1 rest,
    ~ In CallListing rest /\ ~ In CallFallback rest /\
    draws p1 = draws p /\
    calls p1 = (calls p ++ CallListing :: rest)%list /\
    ((exists stamp settled,
        snapshot = live_snapshot stamp settled /\
        radar_latest rt up p
        = (Return (Json200 snapshot), stored snapshot (Date_now up) p1)) \/
     (snapshot = generated_snapshot rt up (draws p) /\
      radar_latest rt up p
      = (Return (Json200 snapshot),
         stored snapshot (Date_now up)
                (advance 1250 (logged CallFallback p1))))).
Proof.
  intros Hs.
  destruct (live_frame up p)
    as (o & p1 & rest & L & Hc & H1 & H2 & Hd & _ & _ & Ho).
  destruct o as [[[pts stamp] src]|e].
  - destruct Ho as [-> [settled ->]].
    exists (live_snapshot stamp settled), p1, rest.
    repeat (split; [assumption|]). left. exists stamp, settled.
    split; [reflexivity|]. exact (@radar_latest_live rt up p p1 _ _ Hs L).
  - exists (generated_snapshot rt up (draws p)), p1, rest.
    repeat (split; [assumption|]). right. split; [reflexivity|].
    rewrite <- Hd. exact (@radar_latest_generated rt up p p1 e Hs L).
Qed.

(** What a refresh stores. *)
Lemma refresh_stores (rt : Runtime) (up : Upstream) (p : Process) :
  stale up p ->
  exists snapshot p',
    radar_latest rt up p = (Return (Json200 snapshot), p') /\
    cachedData p' = Some snapshot /\ lastFetchTime p' = Date_now up.
Proof.
  intros Hs.
  destruct (refresh_outcomes rt up p Hs)
    as (snapshot & p1 & rest & _ & _ & _ & _ & [(st & se & _ & R)|(_ & R)]);
    eexists; eexists; (split; [exact R|]); split; reflexivity.
Qed.

(** What every request stores. *)
Lemma response_stored (rt : Runtime) (up : Upstream) (p : Process) :
  exists snapshot p',
    radar_latest rt up p = (Return (Json200 snapshot), p') /\
    cachedData p' = Some snapshot.
Proof.
  destruct (cachedData p) as [cached|] eqn:Hc.
  - destruct (Z.ltb_spec (Date_now up - lastFetchTime p) CACHE_DURATION)
      as [Hlt|Hge].
    + exists cached, p. split; [|exact Hc].
      unfold radar_latest, try_catch, bind, read, ret. rewrite Hc.
      destruct (Z.ltb_spec (Date_now up - lastFetchTime p) CACHE_DURATION);
        [reflexivity | lia].
    + destruct (refresh_stores rt up p (or_intror Hge))
        as (snapshot & p' & R & C & _). eauto.
  - destruct (refresh_stores rt up p (or_introl Hc))
      as (snapshot & p' & R & C & _). eauto.
Qed.

(** X14. A request whose upstream calls all settle, fulfilled or rejected,
    never reaches the catch-all of the handler: it is answered with the
    status 200, never 500, and the snapshot it sends is the one the handler
    holds in [cachedData] when it sends it. *)
Theorem response_is_cached (rt : Runtime) (up : Upstream) (p : Process) :
  (exists snapshot p',
      radar_latest rt up p = (Return (Json200 snapshot), p') /\
      cachedData p' = Some snapshot) /\
  (forall error details,
      fst (radar_latest rt up p) <> Return (Json500 error details)) /\
  (forall e, fst (radar_latest rt up p) <> Throw e).
Proof.
  destruct (response_stored rt up p) as (snapshot & p' & R & C).
  split; [eauto|]. rewrite R. cbn [fst]. split; intros; discriminate.
Qed.

(** X15. A request that finds the cache empty or 120000 ms old lists the
    directory exactly once, stores what it answers together with the time
    of the request, and either labels the snapshot live without drawing a
    random number, or calls the generator once, which draws 1250. *)
Theorem stale_request_refreshes (rt : Runtime) (up : Upstream) (p : Process) :
  stale up p ->
  exists snapshot p' pipeline generator,
    radar_latest rt up p = (Return (Json200 snapshot), p') /\
    cachedData p' = Some snapshot /\ lastFetchTime p' = Date_now up /\
    calls p' = (calls p ++ CallListing :: pipeline ++ generator)%list /\
    ~ In CallListing pipeline /\ ~ In CallFallback pipeline /\
    ((generator = [] /\ draws p' = draws p /\ source snapshot = LIVE) \/
     (generator = [CallFallback] /\ draws p' = (1250 + draws p)%nat /\
      source snapshot = GENERATED /\ count snapshot = Some 550%nat)).
Proof.
  intros Hs.
  destruct (refresh_outcomes rt up p Hs)
    as (snapshot & p1 & rest & H1 & H2 & Hd & Hc &
        [(st & se & -> & R)|(-> & R)]).
  - eexists. eexists. exists rest, []. split; [exact R|].
    cbn [cachedData lastFetchTime calls draws stored].
    rewrite app_nil_r. repeat (split; [assumption || reflexivity|]).
    left. repeat split. exact Hd.
  - eexists. eexists. exists rest, [CallFallback]. split; [exact R|].
    cbn [cachedData lastFetchTime calls draws stored advance logged].
    rewrite Hc, Hd, <- app_assoc. cbn [app].
    repeat (split; [assumption || reflexivity|]).
    right. repeat split.
Qed.

Lemma stale_request_refreshes_witness :
  exists snapshot p' pipeline generator,
    radar_latest Examples.steady Examples.empty_listing_world startup
    = (Return (Json200 snapshot), p') /\
    cachedData p' = Some snapshot /\
    lastFetchTime p' = Date_now Examples.empty_listing_world /\
    calls p' = (calls startup ++ CallListing :: pipeline ++ generator)%list /\
    ~ In CallListing pipeline /\ ~ In CallFallback pipeline /\
    ((generator = [] /\ draws p' = draws startup /\ source snapshot = LIVE) \/
     (generator = [CallFallback] /\ draws p' = (1250 + draws startup)%nat /\
      source snapshot = GENERATED /\ count snapshot = Some 550%nat)).
Proof.
  exact (stale_request_refreshes Examples.steady Examples.empty_listing_world
           startup (or_introl eq_refl)).
Defined.

(** The first request of [Examples.live_world], in full. *)
Lemma live_world_first_request :
  radar_latest Examples.steady Examples.live_world startup
  = (Return (Json200
       (live_snapshot "20240101-000200"
          (Return (Projector.project Examples.even_grid)))),
     Examples.warm).
Proof. vm_compute. reflexivity. Qed.

Lemma fulfilled_no_rejection (stamp : string) (points : list Sample) :
  Lifetime.no_rejection (live_snapshot stamp (Return points)).
Proof. intros e. cbn. discriminate. Qed.

(** X16. When the snapshot of a refresh holds no rejected promise, a second
    request less than 120000 ms later is answered with the same snapshot
    and changes nothing. *)
Theorem repeat_within_ttl (rt : Runtime) (up1 up2 : Upstream) (p p' : Process)
    (snapshot : Snapshot) :
  stale up1 p ->
  radar_latest rt up1 p = (Return (Json200 snapshot), p') ->
  Lifetime.no_rejection snapshot ->
  (Date_now up2 - Date_now up1 < CACHE_DURATION)%Z ->
  radar_latest rt up2 p' = (Return (Json200 snapshot), p').
Proof.
  intros Hs R _ Ht.
  destruct (refresh_stores rt up1 p Hs) as (s1 & p1 & R1 & C & T).
  rewrite R in R1. injection R1 as <- <-.
  unfold radar_latest, try_catch, bind, read, ret. rewrite C, T.
  destruct (Z.ltb_spec (Date_now up2 - Date_now up1) CACHE_DURATION);
    [reflexivity | lia].
Qed.

Lemma repeat_within_ttl_witness :
  radar_latest Examples.steady Examples.live_world_later Examples.warm
  = (Return (Json200
       (live_snapshot "20240101-000200"
          (Return (Projector.project Examples.even_grid)))),
     Examples.warm).
Proof.
  apply (repeat_within_ttl Examples.steady Examples.live_world
           Examples.live_world_later startup).
  - left. reflexivity.
  - exact live_world_first_request.
  - apply fulfilled_no_rejection.
  - vm_compute. reflexivity.
Defined.

(** X17. The window of the cache is half-open: after a refresh whose
    snapshot holds no rejected promise, a request finds the cache stale
    exactly when it reads the clock 120000 ms or more after the refresh
    did; at 119999 ms it is served from the cache, at 120000 ms it is
    not. *)
Theorem cache_window_half_open (rt : Runtime) (up1 up2 : Upstream)
    (p p' : Process) (snapshot : Snapshot) :
  stale up1 p ->
  radar_latest rt up1 p = (Return (Json200 snapshot), p') ->
  Lifetime.no_rejection snapshot ->
  (stale up2 p' <-> (CACHE_DURATION <= Date_now up2 - Date_now up1)%Z) /\
  ((Date_now up2 - Date_now up1 = CACHE_DURATION - 1)%Z ->
   radar_latest rt up2 p' = (Return (Json200 snapshot), p')) /\
  ((Date_now up2 - Date_now up1 = CACHE_DURATION)%Z ->
   exists fresh p'',
     radar_latest rt up2 p' = (Return (Json200 fresh), p'') /\
     lastFetchTime p'' = Date_now up2 /\
     In CallListing (skipn (List.length (calls p')) (calls p''))).
Proof.
  intros Hs R _.
  destruct (refresh_stores rt up1 p Hs) as (s1 & p1 & R1 & C & T).
  rewrite R in R1. injection R1 as <- <-.
  assert (stale up2 p' <-> (CACHE_DURATION <= Date_now up2 - Date_now up1)%Z)
    as Hiff.
  { unfold stale. rewrite C, T. split; [intros [H|H]; [discriminate|exact H]|].
    intros H. now right. }
  split; [exact Hiff|]. split.
  - intros E. unfold radar_latest, try_catch, bind, read, ret. rewrite C, T.
    destruct (Z.ltb_spec (Date_now up2 - Date_now up1) CACHE_DURATION);
      [reflexivity | lia].
  - intros E.
    assert (stale up2 p') as Hs2 by (apply Hiff; lia).
    destruct (refresh_outcomes rt up2 p' Hs2)
      as (fresh & p2 & rest & _ & _ & _ & Hc & [(st & se & _ & R2)|(_ & R2)]);
      eexists; eexists; (split; [exact R2|]); (split; [reflexivity|]);
      cbn [calls stored advance logged]; rewrite Hc.
    + rewrite skipn_app, skipn_all, Nat.sub_diag. now left.
    + rewrite <- app_assoc, skipn_app, skipn_all, Nat.sub_diag. now left.
Qed.

Lemma cache_window_half_open_witness :
  (stale MoreExamples.live_world_next_poll Examples.warm <->
   (CACHE_DURATION <= Date_now MoreExamples.live_world_next_poll
                      - Date_now Examples.live_world)%Z) /\
  ((Date_now MoreExamples.live_world_next_poll - Date_now Examples.live_world
    = CACHE_DURATION - 1)%Z ->
   radar_latest Examples.steady MoreExamples.live_world_next_poll Examples.warm
   = (Return (Json200
        (live_snapshot "20240101-000200"
           (Return (Projector.project Examples.even_grid)))),
      Examples.warm)) /\
  ((Date_now MoreExamples.live_world_next_poll - Date_now Examples.live_world
    = CACHE_DURATION)%Z ->
   exists fresh p'',
     radar_latest Examples.steady MoreExamples.live_world_next_poll
                  Examples.warm
     = (Return (Json200 fresh), p'') /\
     lastFetchTime p'' = Date_now MoreExamples.live_world_next_poll /\
     In CallListing (skipn (List.length (calls Examples.warm)) (calls p''))).
Proof.
  apply (cache_window_half_open Examples.steady Examples.live_world
           MoreExamples.live_world_next_poll startup).
  - left. reflexivity.
  - exact live_world_first_request.
  - apply fulfilled_no_rejection.
Defined.

(** X18. After a request of the radar endpoint whose snapshot holds no
    rejected promise, the health endpoint reports a cached snapshot; after
    a refresh it reports the whole seconds since the time of that
    request. *)
Theorem health_after_radar (rt : Runtime) (up1 up2 : Upstream)
    (p p' : Process) (snapshot : Snapshot) :
  radar_latest rt up1 p = (Return (Json200 snapshot), p') ->
  Lifetime.no_rejection snapshot ->
  exists body,
    health up2 p' = (Return body, p') /\
    cached body = true /\
    (stale up1 p ->
     cacheAge body = Some ((Date_now up2 - Date_now up1) / 1000)%Z).
Proof.
  intros R _.
  destruct (response_stored rt up1 p) as (s1 & p1 & R1 & C).
  rewrite R in R1. injection R1 as <- <-.
  eexists. split; [reflexivity|].
  cbn [cached cacheAge]. rewrite C. split; [reflexivity|].
  intros Hs.
  destruct (refresh_stores rt up1 p Hs) as (s2 & p2 & R2 & _ & T).
  rewrite R in R2. injection R2 as _ <-. now rewrite T.
Qed.

Lemma health_after_radar_witness :
  exists body,
    health Examples.live_world_later Examples.warm
    = (Return body, Examples.warm) /\
    cached body = true /\
    (stale Examples.live_world startup ->
     cacheAge body
     = Some ((Date_now Examples.live_world_later
              - Date_now Examples.live_world) / 1000)%Z).
Proof.
  apply (health_after_radar Examples.steady Examples.live_world
           Examples.live_world_later startup Examples.warm
           (live_snapshot "20240101-000200"
              (Return (Projector.project Examples.even_grid)))).
  - exact live_world_first_request.
  - apply fulfilled_no_rejection.
Defined.

(** X19. The decoder is handed the downloaded bytes as they are when the name
    of the file does not end in [.gz], and what [gunzip] makes of them when
    it does; [gunzip] is called in the second case only. *)
Theorem decoder_input (rt : Runtime) (up : Upstream) (p : Process)
    (body : string) (file : Scanner.RemoteFileRef) (raw buffer : Buffer) :
  stale up p ->
  get_listing up = Return body -> Scanner.on_listing_end body = Return file ->
  get_file up (Scanner.filename file) = Return raw ->
  (if endsWith (Scanner.filename file) ".gz"
   then zlib_gunzip up raw else Return raw) = Return buffer ->
  exists stamp p',
    radar_latest rt up p
    = (Return (Json200 (live_snapshot stamp
         (Projector.parse_decoded (grib2_parseBuffer up buffer)))), p') /\
    calls p'
    = (calls p ++ CallListing :: CallDownload (Scanner.filename file)
         :: (if endsWith (Scanner.filename file) ".gz"
             then [CallGunzip; CallDecoder] else [CallDecoder]))%list.
Proof.
  intros Hs H1 H2 H3 H4.
  assert (Scanner.isCompressed file = endsWith (Scanner.filename file) ".gz")
    as Hc.
  { destruct (@ScannerFacts.on_listing_end_Return body file H2) as (t & _ & E).
    exact E. }
  rewrite <- Hc in *.
  destruct (@live_after_download up p body file raw buffer H1 H2 H3 H4)
    as (stamp & p1 & _ & L & C & _).
  exists stamp. eexists.
  split; [exact (@radar_latest_live rt up p p1 _ _ Hs L)|].
  exact C.
Qed.

Lemma decoder_input_witness :
  exists stamp p',
    radar_latest Examples.steady Examples.live_world startup
    = (Return (Json200 (live_snapshot stamp
         (Projector.parse_decoded
            (grib2_parseBuffer Examples.live_world Examples.grib_bytes)))), p') /\
    calls p'
    = (calls startup ++ CallListing :: CallDownload Examples.newer
         :: (if endsWith Examples.newer ".gz"
             then [CallGunzip; CallDecoder] else [CallDecoder]))%list.
Proof.
  exact (decoder_input Examples.steady Examples.live_world startup
           Examples.page
           {| Scanner.filename := Examples.newer;
              Scanner.isCompressed := true |}
           Examples.gz_bytes Examples.grib_bytes
           (or_introl eq_refl) eq_refl
           ltac:(vm_compute; reflexivity) eq_refl eq_refl).
Defined.

(** X20. When the listing fails, names no file, or the download or the
    decompression fails, the answer is the generated snapshot: 550 samples
    in an array, their number as [count], the time of the request as time
    stamp, and the generated label. *)
Theorem acquisition_failure_answer (rt : Runtime) (up : Upstream)
    (p : Process) (e : string) :
  stale up p ->
  get_listing up = Throw e \/
  (exists body, get_listing up = Return body /\
     (Scanner.on_listing_end body = Throw e \/
      exists file, Scanner.on_listing_end body = Return file /\
        (get_file up (Scanner.filename file) = Throw e \/
         exists raw, get_file up (Scanner.filename file) = Return raw /\
           Scanner.isCompressed file = true /\
           zlib_gunzip up raw = Throw e))) ->
  exists samples p',
    radar_latest rt up p
    = (Return (Json200 {| timestamp := compact_stamp (Date_iso up);
                          data := Arr samples;
                          count := Some 550%nat;
                          source := "Generated (MRMS unavailable)" |}), p') /\
    List.length samples = 550%nat /\
    draws p' = (1250 + draws p)%nat.
Proof.
  intros Hs H.
  assert (exists p1, live up p = (Throw e, p1) /\ draws p1 = draws p) as L.
  { destruct H as [H|(body & Hb & [H|(file & Hf & [H|(raw & Hr & Hc & H)])])].
    - eexists. split; [exact (@live_listing_error up p e H) | reflexivity].
    - eexists. split; [exact (@live_no_files up p body e Hb H) | reflexivity].
    - eexists. split;
        [exact (@live_download_error up p body e file Hb Hf H) | reflexivity].
    - eexists. split;
        [exact (@live_gunzip_error up p body e file raw Hb Hf Hr Hc H)
        | reflexivity]. }
  destruct L as (p1 & L & Hd).
  exists (fallback_points rt (draws p1)). eexists.
  split; [exact (@radar_latest_generated rt up p p1 e Hs L)|].
  split; [apply fallback_points_length|].
  cbn [draws stored advance logged]. now rewrite Hd.
Qed.

Lemma acquisition_failure_answer_witness :
  exists samples p',
    radar_latest Examples.steady Examples.empty_listing_world startup
    = (Return (Json200
         {| timestamp := compact_stamp (Date_iso Examples.empty_listing_world);
            data := Arr samples;
            count := Some 550%nat;
            source := "Generated (MRMS unavailable)" |}), p') /\
    List.length samples = 550%nat /\
    draws p' = (1250 + draws startup)%nat.
Proof.
  apply (acquisition_failure_answer Examples.steady
           Examples.empty_listing_world startup "No MRMS files found").
  - left. reflexivity.
  - right. eexists. split; [reflexivity|]. left. vm_compute. reflexivity.
Defined.

End ServerMore.

(** ** The client: colours, the state after a fetch, what it can draw *)

Module FrontendFacts.
Import Num Js Server Statements NumFacts ServerFacts Frontend.
Local Open Scope string_scope.

(** X21. The colour of a value is the colour of the legend row whose range
    holds it, and every value from 5 up is in a row. *)
Theorem legend_agrees (v : Q) :
  (forall row, In row legend ->
     (row_from row <= v)%Q ->
     match row_to row with Some hi => (v < hi)%Q | None => True end ->
     getColorForValue v = row_color row) /\
  ((5 <= v)%Q ->
   exists row, In row legend /\ (row_from row <= v)%Q /\
     match row_to row with Some hi => (v < hi)%Q | None => True end).
Proof.
  split.
  - intros row Hin Hlo Hhi. unfold getColorForValue.
    destruct (Qltb v 15) eqn:E15; [apply Qltb_lt in E15|];
    destruct (Qltb v 30) eqn:E30; try apply Qltb_lt in E30;
    destruct (Qltb v 45) eqn:E45; try apply Qltb_lt in E45;
    destruct (Qltb v 60) eqn:E60; try apply Qltb_lt in E60;
    unfold Qltb in *;
    repeat match goal with
           | H : negb (Qle_bool _ _) = false |- _ =>
               apply negb_false_iff, Qle_bool_iff in H
           end;
    unfold legend in Hin;
    repeat (destruct Hin as [<-|Hin];
            [cbn [row_from row_to row_color] in *;
             first [reflexivity | exfalso; lra]|]);
    destruct Hin.
  - intros H5.
    destruct (Qlt_le_dec v 15); [eexists; split; [left; reflexivity|];
      cbn; split; assumption|].
    destruct (Qlt_le_dec v 30);
      [eexists; split; [right; left; reflexivity|]; cbn; split; assumption|].
    destruct (Qlt_le_dec v 45);
      [eexists; split; [do 2 right; left; reflexivity|]; cbn; split;
       assumption|].
    destruct (Qlt_le_dec v 60);
      [eexists; split; [do 3 right; left; reflexivity|]; cbn; split;
       assumption|].
    eexists; split; [do 4 right; left; reflexivity|]. cbn. split; auto.
Qed.

Lemma radarData_after (replies : list (Reply * Z)) :
  forall st,
    radarData (after_replies replies st) = last_body replies (radarData st).
Proof.
  unfold after_replies.
  induction replies as [|[reply now] rest IH]; intros st; [reflexivity|].
  cbn [fold_left fst snd]. rewrite IH.
  destruct reply as [m|[] [d|m]]; reflexivity.
Qed.

(** X22. After any sequence of fetches the client is no longer loading; it
    shows the body of the last reply it could read (a failed fetch keeps
    what was shown before) and reports an error exactly when the last
    fetch failed. *)
Theorem client_after_fetches (replies : list (Reply * Z)) (reply : Reply)
    (now : Z) (st : AppState) :
  loading (after_replies (replies ++ [(reply, now)]) st) = false /\
  radarData (after_replies (replies ++ [(reply, now)]) st)
  = last_body (replies ++ [(reply, now)]) (radarData st) /\
  (error (after_replies (replies ++ [(reply, now)]) st) = None
   <-> succeeded reply = true) /\
  (succeeded reply = false ->
   radarData (after_replies (replies ++ [(reply, now)]) st)
   = radarData (after_replies replies st)).
Proof.
  split; [|split; [apply radarData_after|split]];
    unfold after_replies; rewrite fold_left_app; cbn [fold_left fst snd];
    destruct reply as [m|[] [d|m]]; cbn;
    try reflexivity; try (split; congruence); try discriminate;
    intros; reflexivity.
Qed.

Lemma live_is_not_generated : LIVE <> GENERATED.
Proof. discriminate. Qed.

(** X23. A refreshed response on the client. When it is labelled generated the
    map shows 550 markers and the info line the count 550. When it is
    labelled live, [data] reaches the client as the empty object: drawing
    the markers throws, and the count is undefined. *)
Theorem refreshed_response_on_client (rt : Runtime) (up : Upstream)
    (p p' : Process) (snapshot : Snapshot) (now : Z) (st : AppState) :
  stale up p ->
  radar_latest rt up p = (Return (Json200 snapshot), p') ->
  (source snapshot = GENERATED ->
   exists markers,
     render_markers
       (radarData (fetchRadarData (Http true (Return (res_json snapshot)))
                                  now st))
     = Return markers /\
     List.length markers = 550%nat /\
     w_count (res_json snapshot) = Some 550%nat) /\
  (source snapshot = LIVE ->
   render_markers
     (radarData (fetchRadarData (Http true (Return (res_json snapshot)))
                                now st))
   = Throw "radarData.data.map is not a function" /\
   w_count (res_json snapshot) = None).
Proof.
  intros Hs R.
  destruct (ServerMore.refresh_outcomes rt up p Hs)
    as (s0 & p1 & rest & _ & _ & _ & _ & [(stamp & settled & -> & R')|(-> & R')]);
    rewrite R in R'; injection R' as -> _.
  - split; [intros H; cbn in H; discriminate H|].
    intros _. split; reflexivity.
  - split; [|intros H; cbn in H; discriminate H].
    intros _. eexists. split; [reflexivity|]. split; [|reflexivity].
    now rewrite length_map, fallback_points_length.
Qed.

Lemma refreshed_response_on_client_witness :
  (source (live_snapshot "20240101-000200"
             (Return (Projector.project Examples.even_grid))) = GENERATED ->
   exists markers,
     render_markers
       (radarData (fetchRadarData
          (Http true (Return (res_json
             (live_snapshot "20240101-000200"
                (Return (Projector.project Examples.even_grid))))))
          0 initial))
     = Return markers /\
     List.length markers = 550%nat /\
     w_count (res_json (live_snapshot "20240101-000200"
                (Return (Projector.project Examples.even_grid))))
     = Some 550%nat) /\
  (source (live_snapshot "20240101-000200"
             (Return (Projector.project Examples.even_grid))) = LIVE ->
   render_markers
     (radarData (fetchRadarData
        (Http true (Return (res_json
           (live_snapshot "20240101-000200"
              (Return (Projector.project Examples.even_grid))))))
        0 initial))
   = Throw "radarData.data.map is not a function" /\
   w_count (res_json (live_snapshot "20240101-000200"
              (Return (Projector.project Examples.even_grid))))
   = None).
Proof.
  apply (refreshed_response_on_client Examples.steady Examples.live_world
           startup Examples.warm).
  - left. reflexivity.
  - vm_compute. reflexivity.
Defined.

End FrontendFacts.
